(** * Crown-role rotation: [rotateCrown] and [scheduleCrown]

    A shallow embedding of [src/utils/rotateCrown.js] and of the scheduling
    helper that installs it as a recurring job, together with the properties
    the design document states about them.

    Conventions of the embedding.

    - An execution of the asynchronous function [rotateCrown] is described by
      the sequence of calls it issues on its collaborators (the {e trace}) and
      by the way its promise settles ([Resolved] or [Rejected]).
    - The chat platform answers are an input: a [Gateway] says, for every
      call, whether its promise resolves or rejects, and in which order the
      pending [removeRole] promises of the strip phase settle.
    - Prepared database statements are total functions of the guild id; they
      are assumed not to throw. *)

From Stdlib Require Import Ascii String.
From stdpp Require Import gmap strings list.

Open Scope string_scope.
Open Scope list_scope.

(** ** JavaScript values *)

Module JS.

(** Truthiness of a value that is a string, [null] or [undefined]. *)
Definition truthy_string (v : option string) : bool :=
  match v with
  | Some s => bool_decide (s ≠ "")
  | None => false
  end.

(** Truthiness of a value that is an integer, [null] or [undefined]. *)
Definition truthy_int (v : option Z) : bool :=
  match v with
  | Some z => bool_decide (z ≠ 0%Z)
  | None => false
  end.

(** [s.substring(0, n)] and [s.substring(n)]. *)
Fixpoint take (n : nat) (s : string) : string :=
  match n, s with
  | S n', String c s' => String c (take n' s')
  | _, _ => ""
  end.

Fixpoint drop (n : nat) (s : string) : string :=
  match n, s with
  | S n', String _ s' => drop n' s'
  | _, _ => s
  end.

(** [s.indexOf(pat)]: the least position at which [pat] occurs. *)
Fixpoint indexOf (pat s : string) : option nat :=
  if String.prefix pat s then Some 0
  else match s with
       | "" => None
       | String _ s' => S <$> indexOf pat s'
       end.

(** The abstract operation GetSubstitution for a string pattern: there are
    no captures, so the dollar sign is special only before another dollar
    sign, an ampersand, a backquote and a quote. *)
Fixpoint getSubstitution (matched before after rep : string) : string :=
  match rep with
  | "" => ""
  | String c r =>
      if bool_decide (c = "$"%char) then
        match r with
        | "" => String c ""
        | String d r' =>
            if bool_decide (d = "$"%char) then
              String "$" (getSubstitution matched before after r')
            else if bool_decide (d = "&"%char) then
              matched +:+ getSubstitution matched before after r'
            else if bool_decide (d = "`"%char) then
              before +:+ getSubstitution matched before after r'
            else if bool_decide (d = "'"%char) then
              after +:+ getSubstitution matched before after r'
            else String c (getSubstitution matched before after r)
        end
      else String c (getSubstitution matched before after r)
  end.

(** [s.replace(pat, rep)] with a string pattern: only the first occurrence
    of [pat] is looked for. *)
Definition replace (s pat rep : string) : string :=
  match indexOf pat s with
  | None => s
  | Some pos =>
      let preserved := take pos s in
      let rest := drop (pos + String.length pat) s in
      preserved +:+ getSubstitution pat preserved rest rep +:+ rest
  end.

End JS.

(** ** Data model *)

(** A role of the guild; [role_mention] is the text [`${role}`]. *)
Record Role := { role_id : string; role_mention : string }.

Record Channel := { channel_id : string }.

(** A guild member: [member_roles] are the keys of [member.roles],
    [member_mention] is the text [`${member}`]. *)
Record Member := {
  member_id : string;
  member_roles : gset string;
  displayName : string;
  member_mention : string
}.

(** [guild.channels] and [guild.roles] are keyed collections; [guild.members]
    is kept in iteration order because [map] walks it. [job] is the ad hoc
    property [guild.job] ([None] for [undefined] and [null]). *)
Record Guild := {
  guild_id : string;
  guild_name : string;
  channels : gmap string Channel;
  roles : gmap string Role;
  members : list Member;
  job : option nat
}.

Record LeaderboardRow := { user_id : string; points : Z }.

(** The prepared statements of [client.db] that the two functions read. *)
Record Client := {
  selectDefaultChannelId : string → option string;
  selectCrownMessage : string → option string;
  selectUsePoints : string → option Z;
  selectCrownRoleId : string → option string;
  selectCrownSchedule : string → option string;
  selectLeaderboard : string → list LeaderboardRow
}.

(** The three texts [rotateCrown] posts. The two notices are the [oneLine]
    templates of the catch blocks, kept by their interpolated parts. *)
Inductive Message :=
  | StripNotice (role member : string)
  | GrantNotice (role winner : string)
  | CrownMessage (text : string).

(** Calls issued on the collaborators. A call on the gateway carries the way
    its promise settles. *)
Inductive Event :=
  | EvRemoveRole (member role : string) (ok : bool)
  | EvAddRole (member role : string) (ok : bool)
  | EvClearPoints (guild : string)
  | EvSend (channel : string) (msg : Message) (ok : bool)
  | EvLogInfo (line : string).

Inductive Error := TypeError | GatewayError.

Inductive Completion := Resolved | Rejected (e : Error).

Record Run := { trace : list Event; outcome : Completion }.

(** The answers of the chat platform. *)
Record Gateway := {
  removeRole_ok : string → bool;
  addRole_ok : string → bool;
  send_ok : Message → bool;
  settle : list Member → list Member
}.

(** The pending [removeRole] promises all settle, each once. *)
Definition settles_all (gw : Gateway) : Prop :=
  ∀ l, settle gw l ≡ₚ l.

(** ** rotateCrown *)

(** [guild.members.get(id)] *)
Fixpoint members_get (ms : list Member) (id : string) : option Member :=
  match ms with
  | [] => None
  | m :: ms' => if bool_decide (member_id m = id) then Some m else members_get ms' id
  end.

(** [`${winner}`]: the mention, or the text of [undefined]. *)
Definition winner_text (winner : option Member) : string :=
  match winner with
  | Some w => member_mention w
  | None => "undefined"
  end.

(** The members for which [member.roles.has(crownRole.id)] holds. *)
Definition holders (guild : Guild) (crownRole : Role) : list Member :=
  filter (λ m, role_id crownRole ∈ member_roles m) (members guild).

(** State shared by the arrow functions of the strip phase: the calls issued
    so far, the flag [quit], and whether one of the promises given to
    [Promise.all] has rejected. *)
Record Strip := {
  strip_events : list Event;
  quit : bool;
  strip_rejected : bool
}.

(** The synchronous part of the [map]: each holder's arrow function runs up
    to its [await], so every [removeRole] is issued before anything else. *)
Definition strip_issue (gw : Gateway) (crownRole : Role) (hs : list Member) : list Event :=
  (λ m, EvRemoveRole (member_id m) (role_id crownRole) (removeRole_ok gw (member_id m))) <$> hs.

(** What the arrow function of [m] does once its [removeRole] has settled
    (lines 19 to 25): nothing on success; on failure it returns the promise of
    the notice when there is a default channel, and sets [quit] otherwise. *)
Definition strip_resume (gw : Gateway) (defaultChannel : option Channel)
    (crownRole : Role) (st : Strip) (m : Member) : Strip :=
  if removeRole_ok gw (member_id m) then st
  else
    match defaultChannel with
    | Some ch =>
        let msg := StripNotice (role_mention crownRole) (member_mention m) in
        let ok := send_ok gw msg in
        {| strip_events := strip_events st ++ [EvSend (channel_id ch) msg ok];
           quit := quit st;
           strip_rejected := strip_rejected st || negb ok |}
    | None =>
        {| strip_events := strip_events st;
           quit := true;
           strip_rejected := strip_rejected st |}
    end.

(** Lines 15 to 27: all the [removeRole] calls are issued, then the arrow
    functions resume one by one in the order their promises settle. *)
Definition strip_phase (gw : Gateway) (defaultChannel : option Channel)
    (crownRole : Role) (guild : Guild) : Strip :=
  let hs := holders guild crownRole in
  foldl (strip_resume gw defaultChannel crownRole)
        {| strip_events := strip_issue gw crownRole hs;
           quit := false;
           strip_rejected := false |}
        (settle gw hs).

(** Lines 43 to 47: the two substitutions in the crown message. *)
Definition renderCrownMessage (template winner role : string) : string :=
  JS.replace (JS.replace template "?member" winner) "?role" role.

(** Lines 43 to 52, reached when the grant phase does not return. *)
Definition announce (gw : Gateway) (client : Client) (guild : Guild)
    (crownRole : Role) (defaultChannel : option Channel)
    (winner : option Member) : Run :=
  let crownMessage := selectCrownMessage client (guild_id guild) in
  let crownMessage :=
    if JS.truthy_string crownMessage
    then (λ t, renderCrownMessage t (winner_text winner) (role_mention crownRole)) <$> crownMessage
    else crownMessage in
  let sent :=
    match defaultChannel, crownMessage with
    | Some ch, Some text =>
        if bool_decide (text ≠ "")
        then [EvSend (channel_id ch) (CrownMessage text) (send_ok gw (CrownMessage text))]
        else []
    | _, _ => []
    end in
  match winner with
  | Some w =>
      {| trace := sent ++ [EvLogInfo (guild_name guild
                    +:+ ": Successfully transferred crown role to "
                    +:+ displayName w +:+ " and cleared points")];
         outcome := Resolved |}
  | None => {| trace := sent; outcome := Rejected TypeError |}
  end.

(** The catch block of the grant phase. *)
Definition grant_catch (gw : Gateway) (client : Client) (guild : Guild)
    (crownRole : Role) (defaultChannel : option Channel)
    (winner : option Member) : Run :=
  match defaultChannel with
  | Some ch =>
      let msg := GrantNotice (role_mention crownRole) (winner_text winner) in
      let ok := send_ok gw msg in
      {| trace := [EvSend (channel_id ch) msg ok];
         outcome := if ok then Resolved else Rejected GatewayError |}
  | None => announce gw client guild crownRole defaultChannel winner
  end.

Definition prepend (evs : list Event) (r : Run) : Run :=
  {| trace := evs ++ trace r; outcome := outcome r |}.

(** Lines 31 to 52. *)
Definition grant_phase (gw : Gateway) (client : Client) (guild : Guild)
    (crownRole : Role) (defaultChannel : option Channel)
    (winner : option Member) : Run :=
  match winner with
  | None => grant_catch gw client guild crownRole defaultChannel winner
  | Some w =>
      let ok := addRole_ok gw (member_id w) in
      let add := EvAddRole (member_id w) (role_id crownRole) ok in
      if ok
      then prepend [add; EvClearPoints (guild_id guild)]
             (announce gw client guild crownRole defaultChannel winner)
      else prepend [add]
             (grant_catch gw client guild crownRole defaultChannel winner)
  end.

(** Lines 6 to 8. *)
Definition defaultChannel_of (client : Client) (guild : Guild) : option Channel :=
  let id := selectDefaultChannelId client (guild_id guild) in
  if JS.truthy_string id then id ≫= (λ i, channels guild !! i) else None.

(** The whole function. Reading [leaderboard[0].user_id] throws on an empty
    array (line 11); [await Promise.all] throws when one of the arrow
    functions' promises rejected (line 15); [if (quit) return] is line 29. *)
Definition rotateCrown (gw : Gateway) (client : Client) (guild : Guild)
    (crownRole : Role) : Run :=
  let defaultChannel := defaultChannel_of client guild in
  match selectLeaderboard client (guild_id guild) with
  | [] => {| trace := []; outcome := Rejected TypeError |}
  | top :: _ =>
      let winner := members_get (members guild) (user_id top) in
      let st := strip_phase gw defaultChannel crownRole guild in
      if strip_rejected st
      then {| trace := strip_events st; outcome := Rejected GatewayError |}
      else if quit st
      then {| trace := strip_events st; outcome := Resolved |}
      else prepend (strip_events st)
             (grant_phase gw client guild crownRole defaultChannel winner)
  end.

(** ** scheduleCrown *)

(** The part of the [node-schedule] package that [scheduleCrown] relies on:
    the table of jobs whose timer is armed. A job keeps its rule and the
    variables its callback closes over. *)
Module Schedule.

Record Job := {
  job_name : nat;
  job_rule : string;
  job_guild : string;
  job_role : Role
}.

Record Timers := {
  scheduledJobs : list Job;
  anonJobCounter : nat
}.

Section Parser.

(** Whether the package accepts a rule; the rule language is its own. *)
Variable parses : string → bool.

(** [schedule.scheduleJob(rule, callback)]: the job object is built, and
    it is armed and returned when the rule is accepted; otherwise the
    result is [null]. Nothing already armed is touched. *)
Definition scheduleJob (t : Timers) (rule : string) (guild : string)
    (role : Role) : Timers * option nat :=
  let name := S (anonJobCounter t) in
  if parses rule
  then ({| scheduledJobs := scheduledJobs t ++
             [{| job_name := name; job_rule := rule;
                 job_guild := guild; job_role := role |}];
           anonJobCounter := name |}, Some name)
  else ({| scheduledJobs := scheduledJobs t; anonJobCounter := name |}, None).

End Parser.

(** The jobs armed for one guild. *)
Definition armed_for (guild : string) (t : Timers) : list Job :=
  filter (λ j, job_guild j = guild) (scheduledJobs t).

End Schedule.

Definition set_job (guild : Guild) (j : option nat) : Guild :=
  {| guild_id := guild_id guild; guild_name := guild_name guild;
     channels := channels guild; roles := roles guild;
     members := members guild; job := j |}.

(** Line 13. *)
Definition crownRole_of (client : Client) (guild : Guild) : option Role :=
  let id := selectCrownRoleId client (guild_id guild) in
  if JS.truthy_string id then id ≫= (λ i, roles guild !! i) else None.

Section ScheduleCrown.

Variable parses : string → bool.

(** The result is the timer table, the guild object and the line logged. *)
Definition scheduleCrown (client : Client) (t : Schedule.Timers) (guild : Guild)
    : Schedule.Timers * Guild * list Event :=
  let enabled := selectUsePoints client (guild_id guild) in
  let crownRole := crownRole_of client guild in
  let cron := selectCrownSchedule client (guild_id guild) in
  let logged := [EvLogInfo (guild_name guild +:+ ": Successfully scheduled job")] in
  match crownRole, cron with
  | Some role, Some rule =>
      if JS.truthy_int enabled && JS.truthy_string cron
      then
        let '(t', handle) := Schedule.scheduleJob parses t rule (guild_id guild) role in
        (t', set_job guild handle, logged)
      else (t, guild, logged)
  | _, _ => (t, guild, logged)
  end.

End ScheduleCrown.

(** What a timer does when it fires: the callback calls [rotateCrown] on the
    captured guild and role and drops the promise, so a rejection of that
    promise is handled by nobody. The promise of the crown message (line 50
    of [rotateCrown]) is dropped too: [droppedSendRejected] tells whether it
    was rejected, which nobody handles either. *)
Record Fire := {
  fire_trace : list Event;
  unhandledRejection : option Error;
  droppedSendRejected : bool
}.

Definition fire (gw : Gateway) (client : Client) (guild : Guild)
    (j : Schedule.Job) : Fire :=
  let r := rotateCrown gw client guild (Schedule.job_role j) in
  {| fire_trace := trace r;
     unhandledRejection :=
       match outcome r with
       | Resolved => None
       | Rejected e => Some e
       end;
     droppedSendRejected :=
       existsb (λ e, match e with
                     | EvSend _ (CrownMessage _) ok => negb ok
                     | _ => false
                     end) (trace r) |}.

(** ** Reading traces *)

Definition is_remove (e : Event) : bool :=
  match e with EvRemoveRole _ _ _ => true | _ => false end.

Definition is_add (e : Event) : bool :=
  match e with EvAddRole _ _ _ => true | _ => false end.


Definition is_clear (e : Event) : bool :=
  match e with EvClearPoints _ => true | _ => false end.

Definition is_strip_notice (e : Event) : bool :=
  match e with EvSend _ (StripNotice _ _) _ => true | _ => false end.

(** The holders whose [removeRole] rejects. *)
Definition failing (gw : Gateway) (hs : list Member) : list Member :=
  filter (λ m, removeRole_ok gw (member_id m) = false) hs.

(** The notices of the strip phase for the holders [hs], in that order. *)
Definition strip_notices (gw : Gateway) (defaultChannel : option Channel)
    (crownRole : Role) (hs : list Member) : list Event :=
  match defaultChannel with
  | Some ch =>
      (λ m, let msg := StripNotice (role_mention crownRole) (member_mention m) in
            EvSend (channel_id ch) msg (send_ok gw msg)) <$> failing gw hs
  | None => []
  end.





(** What the cycle posts or logs once the strip phase is over. *)
Definition is_report (e : Event) : bool :=
  match e with
  | EvSend _ (GrantNotice _ _) _ | EvSend _ (CrownMessage _) _ | EvLogInfo _ => true
  | _ => false
  end.

(** Calls that belong to the strip phase. *)
Definition is_strip (e : Event) : bool :=
  is_remove e || is_strip_notice e.

(** ** Reading templates and settings *)

(** [pat] occurs in [s] at position [j]. *)
Definition occurs_at (pat s : string) (j : nat) : bool :=
  String.prefix pat (JS.drop j s).

(** [pat] does not occur in [s] at any position before [n]. *)
Definition none_before (pat s : string) (n : nat) : Prop :=
  ∀ j, j < n → occurs_at pat s j = false.

(** A text without dollar sign: used as a replacement it stands for itself. *)
Fixpoint dollar_free (s : string) : bool :=
  match s with
  | "" => true
  | String c s' => negb (bool_decide (c = "$"%char)) && dollar_free s'
  end.

(** [s'] is [s] with the first occurrence of [pat], if there is one,
    replaced by [rep]: either [pat] occurs nowhere in [s] and [s'] is [s], or
    [s] is [pre], [pat], [post] with no occurrence of [pat] starting before
    the end of [pre], and [s'] is [pre], [rep], [post]. *)
Definition first_replaced (pat rep s s' : string) : Prop :=
  ((∀ j, occurs_at pat s j = false) ∧ s' = s)
  ∨ ∃ pre post,
      s = pre +:+ pat +:+ post
      ∧ none_before pat s (String.length pre)
      ∧ s' = pre +:+ rep +:+ post.

(** A rotation configuration that does not qualify for a job: the enabled
    flag is false, the role reference is missing or names no role of the
    guild, or the schedule expression is absent. *)
Definition ineligible (client : Client) (guild : Guild) : Prop :=
  JS.truthy_int (selectUsePoints client (guild_id guild)) = false
  ∨ JS.truthy_string (selectCrownRoleId client (guild_id guild)) = false
  ∨ (∃ id, selectCrownRoleId client (guild_id guild) = Some id
           ∧ roles guild !! id = None)
  ∨ JS.truthy_string (selectCrownSchedule client (guild_id guild)) = false.

(** ** A guild to run the cycle on

    Three members hold the stale crown role, the fourth is the top of the
    leaderboard with fifty points. *)
Module Scenario.

Definition crown : Role := {| role_id := "900"; role_mention := "<@&900>" |}.

Definition member (id name : string) (crowned : bool) : Member :=
  {| member_id := id;
     member_roles := if crowned then {[ "900" ]} else ∅;
     displayName := name;
     member_mention := "<@" +:+ id +:+ ">" |}.

Definition guild : Guild :=
  {| guild_id := "42"; guild_name := "Calypso";
     channels := {[ "500" := {| channel_id := "500" |} ]};
     roles := {[ "900" := crown ]};
     members := [member "1" "M1" true; member "2" "M2" true;
                 member "3" "M3" true; member "7" "U1" false];
     job := None |}.

(** The settings row and the leaderboard of the guild. *)
Definition client (channel : option string) (template : option string)
    (leaderboard : list LeaderboardRow) : Client :=
  {| selectDefaultChannelId := λ _, channel;
     selectCrownMessage := λ _, template;
     selectUsePoints := λ _, Some 1%Z;
     selectCrownRoleId := λ _, Some "900";
     selectCrownSchedule := λ _, Some "0 0 * * 5";
     selectLeaderboard := λ _, leaderboard |}.

Definition top (id : string) : list LeaderboardRow :=
  [{| user_id := id; points := 50 |}].

(** A platform on which [removeRole] rejects for the members listed, every
    other call resolves, and the pending promises settle last issued first. *)
Definition gateway (rejecting : list string) : Gateway :=
  {| removeRole_ok := λ m, bool_decide (m ∉ rejecting);
     addRole_ok := λ _, true;
     send_ok := λ _, true;
     settle := reverse |}.

Definition timers : Schedule.Timers :=
  {| Schedule.scheduledJobs := []; Schedule.anonJobCounter := 0 |}.

(** [scheduleCrown] called once, and called again on what the first call
    left, with a package that accepts every rule. *)
Definition once : Schedule.Timers * Guild * list Event :=
  scheduleCrown (λ _, true) (client (Some "500") None (top "7")) timers guild.

Definition twice : Schedule.Timers * Guild * list Event :=
  scheduleCrown (λ _, true) (client (Some "500") None (top "7")) once.1.1 once.1.2.

End Scenario.

(** ** Reading the end of a cycle *)

(** A diagnostic notice whose [send] rejected. *)
Definition is_failed_notice (e : Event) : bool :=
  match e with
  | EvSend _ (StripNotice _ _) ok | EvSend _ (GrantNotice _ _) ok => negb ok
  | _ => false
  end.

Definition is_crown_message (e : Event) : bool :=
  match e with EvSend _ (CrownMessage _) _ => true | _ => false end.

Definition is_log (e : Event) : bool :=
  match e with EvLogInfo _ => true | _ => false end.

(** The line of [client.logger.info] at the end of [rotateCrown]. *)
Definition success_line (guild : Guild) (w : Member) : string :=
  guild_name guild +:+ ": Successfully transferred crown role to "
  +:+ displayName w +:+ " and cleared points".

(** The same platform answers, with the pending promises settling in
    another order. *)
Definition with_settle (gw : Gateway) (order : list Member → list Member) : Gateway :=
  {| removeRole_ok := removeRole_ok gw;
     addRole_ok := addRole_ok gw;
     send_ok := send_ok gw;
     settle := order |}.

(** ** Calling [scheduleCrown] again and again *)

(** [scheduleCrown] called [n] times in a row for the same guild, as on
    every change of its settings. *)
Fixpoint scheduleCrown_times (parses : string → bool) (n : nat) (client : Client)
    (t : Schedule.Timers) (guild : Guild) : Schedule.Timers * Guild :=
  match n with
  | 0 => (t, guild)
  | S n' =>
      let r := scheduleCrown parses client t guild in
      scheduleCrown_times parses n' client r.1.1 r.1.2
  end.

(** ** Command: reading mentions

    The three helpers [getMemberFromMention], [getRoleFromMention] and
    [getChannelFromMention] of the class [Command]. A mention is the text of
    an argument, or [undefined] ([None]) when the argument is missing. *)
Module Mention.

(** The class [\d]: the ten ASCII digits. *)
Definition is_digit (c : ascii) : bool :=
  (48 <=? nat_of_ascii c)%nat && (nat_of_ascii c <=? 57)%nat.

(** A non-empty text made of digits. *)
Fixpoint all_digits (s : string) : bool :=
  match s with
  | "" => false
  | String c "" => is_digit c
  | String c rest => is_digit c && all_digits rest
  end.

(** The end [(\d+)>$] of the three patterns, read from the start of [s]:
    the digits captured, when [s] is digits followed by [>] and nothing. *)
Fixpoint digits_close (s : string) : option string :=
  match s with
  | "" => None
  | String c rest =>
      if is_digit c then
        if bool_decide (rest = ">") then Some (String c "")
        else String c <$> digits_close rest
      else None
  end.

(** [s] without the literal [p] it starts with. *)
Fixpoint strip_prefix (p s : string) : option string :=
  match p, s with
  | "", _ => Some s
  | String a p', String b s' =>
      if bool_decide (a = b) then strip_prefix p' s' else None
  | _, _ => None
  end.

(** [mention.match(/^<@!?(\d+)>$/)], first group. *)
Definition member_id_of (mention : string) : option string :=
  match strip_prefix "<@" mention with
  | Some rest =>
      match strip_prefix "!" rest with
      | Some rest' => digits_close rest'
      | None => digits_close rest
      end
  | None => None
  end.

(** [mention.match(/^<@&(\d+)>$/)], first group. *)
Definition role_id_of (mention : string) : option string :=
  strip_prefix "<@&" mention ≫= digits_close.

(** [mention.match(/^<#(\d+)>$/)], first group. *)
Definition channel_id_of (mention : string) : option string :=
  strip_prefix "<#" mention ≫= digits_close.

(** The common body: nothing for a missing or empty mention, nothing when
    the pattern does not match, else the entry of the collection. *)
Definition from_mention {A} (pattern : string → option string)
    (get : string → option A) (mention : option string) : option A :=
  if JS.truthy_string mention
  then match mention ≫= pattern with
       | Some id => get id
       | None => None
       end
  else None.

Definition getMemberFromMention (guild : Guild) (mention : option string) : option Member :=
  from_mention member_id_of (members_get (members guild)) mention.

Definition getRoleFromMention (guild : Guild) (mention : option string) : option Role :=
  from_mention role_id_of (λ id, roles guild !! id) mention.

Definition getChannelFromMention (guild : Guild) (mention : option string) : option Channel :=
  from_mention channel_id_of (λ id, channels guild !! id) mention.

End Mention.

(** ** Command: permission checks

    [checkPermissions], [checkUserPermissions] and [checkClientPermissions]
    of the class [Command]. The checks read four fields of the command; the
    constructor leaves a boolean in [ownerOnly], [null] or an array in the
    user permissions and an array in the client permissions. The type of the
    permission keys is left open; [label] is the table [permissions.json],
    which gives the text shown for a key, if any. *)
Module Permissions.

Section Checks.

Context {Perm : Type}.

Record Command := {
  name : string;
  ownerOnly : bool;
  userPermissions : option (list Perm);
  clientPermissions : list Perm
}.

(** What the checks ask the platform about a message: whether its author
    is the owner of the bot, the permissions of the author in the channel
    ([null] when the author is not a member of the guild any more), and the
    permissions of the bot in the guild, [message.guild.me.hasPermission]
    ([None] when the message has no guild or the guild does not know the
    bot's member, so that [message.guild.me] cannot be read). *)
Record Env := {
  isOwner : bool;
  permissionsFor : option (Perm → bool);
  me : option (Perm → bool)
}.

(** The texts the checks post in the channel, by their interpolated parts;
    the names of the missing permissions are joined with commas. *)
Inductive Reply :=
  | OwnerOnly (command : string)
  | UserMissing (command : string) (missing : list (option string))
  | ClientMissing (command : string) (missing : list (option string)).

(** A check returns a boolean, or throws: the user's check when
    [permissionsFor] gave [null], the client's check when it has to read
    [message.guild.me] and cannot. *)
Inductive Result := Returned (b : bool) | Threw.

Record Check := { replies : list Reply; result : Result }.

Variable label : Perm → option string.

Definition checkUserPermissions (cmd : Command) (ctx : Env)
    (ownerOverride : bool) : Check :=
  if negb (ownerOnly cmd) && negb (bool_decide (is_Some (userPermissions cmd)))
  then {| replies := []; result := Returned true |}
  else if ownerOverride && isOwner ctx
  then {| replies := []; result := Returned true |}
  else if ownerOnly cmd && negb (isOwner ctx)
  then {| replies := [OwnerOnly (name cmd)]; result := Returned false |}
  else
    match userPermissions cmd with
    | Some perms =>
        match permissionsFor ctx with
        | None => {| replies := []; result := Threw |}
        | Some has =>
            let missing := filter (λ p, has p = false) perms in
            match missing with
            | [] => {| replies := []; result := Returned true |}
            | _ => {| replies := [UserMissing (name cmd) (label <$> missing)];
                      result := Returned false |}
            end
        end
    | None => {| replies := []; result := Returned true |}
    end.

(** The [forEach] reads [message.guild.me] once for each client permission:
    with none to check it is never read. *)
Definition checkClientPermissions (cmd : Command) (ctx : Env) : Check :=
  match clientPermissions cmd, me ctx with
  | [], _ => {| replies := []; result := Returned true |}
  | _ :: _, None => {| replies := []; result := Threw |}
  | perms, Some has =>
      let missing := filter (λ p, has p = false) perms in
      match missing with
      | [] => {| replies := []; result := Returned true |}
      | _ => {| replies := [ClientMissing (name cmd) (label <$> missing)];
                result := Returned false |}
      end
  end.

(** Both checks run, the client's first, before the results are combined;
    when the client's check throws the user's check is not reached. *)
Definition checkPermissions (cmd : Command) (ctx : Env)
    (ownerOverride : bool) : Check :=
  let client := checkClientPermissions cmd ctx in
  match result client with
  | Threw => client
  | Returned c =>
      let user := checkUserPermissions cmd ctx ownerOverride in
      {| replies := replies client ++ replies user;
         result :=
           match result user with
           | Returned u => Returned (c && u)
           | Threw => Threw
           end |}
  end.

End Checks.

Arguments Command : clear implicits.
Arguments Env : clear implicits.

End Permissions.

(** ** Command: the constructor and [validateOptions]

    The options of a command are plain JavaScript values. Numbers are kept
    as integers; [VObj] stands for any other object that is not an array. *)
Module Options.

#[warnings="-register-all"]
Inductive Value :=
  | VUndefined
  | VNull
  | VBool (b : bool)
  | VNum (n : Z)
  | VStr (s : string)
  | VArr (items : list Value)
  | VObj.

Definition truthy (v : Value) : bool :=
  match v with
  | VUndefined | VNull => false
  | VBool b => b
  | VNum n => bool_decide (n ≠ 0%Z)
  | VStr s => bool_decide (s ≠ "")
  | VArr _ | VObj => true
  end.

Definition is_string (v : Value) : bool :=
  match v with VStr _ => true | _ => false end.

Definition is_boolean (v : Value) : bool :=
  match v with VBool _ => true | _ => false end.

(** [a || b] *)
Definition or_else (a b : Value) : Value := if truthy a then a else b.

(** The properties of [options] that the class reads; a property that is
    not there reads as [VUndefined]. *)
Record Options := {
  opt_name : Value;
  opt_aliases : Value;
  opt_usage : Value;
  opt_description : Value;
  opt_type : Value;
  opt_clientPermissions : Value;
  opt_userPermissions : Value;
  opt_ownerOnly : Value
}.

(** The second argument of the constructor: a value whose [typeof] is not
    ['object'], [null], or an object with its properties. *)
Inductive Argument :=
  | NotAnObject
  | Null
  | Object (o : Options).

(** The errors [validateOptions] throws, by the check that failed.
    [NativeTypeError] is the error of reading a property of [null]. *)
Inductive Failure :=
  | NoClient
  | OptionsNotObject
  | NativeTypeError
  | NameNotString
  | NameNotLowercase
  | AliasesNotStrings
  | AliasesNotLowercase
  | UsageNotString
  | DescriptionNotString
  | TypeNotString
  | TypeNotLowercase
  | ClientPermissionsNotArray
  | InvalidClientPermission (perm : Value)
  | UserPermissionsNotArray
  | InvalidUserPermission (perm : Value)
  | OwnerOnlyNotBoolean.

Inductive ErrorClass := PlainError | TypeError | RangeError.

(** The constructor each failure is thrown with. *)
Definition error_class (f : Failure) : ErrorClass :=
  match f with
  | NoClient | NameNotLowercase | TypeNotLowercase => PlainError
  | AliasesNotLowercase | InvalidClientPermission _ | InvalidUserPermission _ => RangeError
  | _ => TypeError
  end.

Section Validate.

(** [String.prototype.toLowerCase], and the truthiness of
    [permissions[perm]] in the table [permissions.json]. *)
Variable toLowerCase : string → string.
Variable permissions : Value → bool.

(** [v !== v.toLowerCase()] for a value already known to be a string. *)
Definition not_lowercase (v : Value) : bool :=
  match v with
  | VStr s => bool_decide (s ≠ toLowerCase s)
  | _ => true
  end.

(** The checks on [options.aliases] (lines 195 to 200). *)
Definition check_aliases (aliases : Value) : option Failure :=
  if truthy aliases then
    match aliases with
    | VArr items =>
        if existsb (λ ali, negb (is_string ali)) items then Some AliasesNotStrings
        else if existsb not_lowercase items then Some AliasesNotLowercase
        else None
    | _ => Some AliasesNotStrings
    end
  else None.

(** The checks on a list of permissions (lines 206 to 221): the first key
    that the table does not know is reported. *)
Definition check_permissions (perms : Value) (not_array : Failure)
    (invalid : Value → Failure) : option Failure :=
  if truthy perms then
    match perms with
    | VArr items =>
        match List.find (λ perm, negb (permissions perm)) items with
        | Some perm => Some (invalid perm)
        | None => None
        end
    | _ => Some not_array
    end
  else None.

(** An optional property that has to be a string when it is given. *)
Definition check_string (v : Value) (f : Failure) : option Failure :=
  if truthy v && negb (is_string v) then Some f else None.

(** The first failure among checks run in order. *)
Definition first_failure (checks : list (option Failure)) : option Failure :=
  List.find (λ c, bool_decide (is_Some c)) checks ≫= id.

(** [Command.validateOptions(client, options)]: [None] when it returns. *)
Definition validateOptions (client : bool) (options : Argument) : option Failure :=
  if negb client then Some NoClient
  else
    match options with
    | NotAnObject => Some OptionsNotObject
    | Null => Some NativeTypeError
    | Object o =>
        first_failure
          [ (if is_string (opt_name o) then None else Some NameNotString);
            (if not_lowercase (opt_name o) then Some NameNotLowercase else None);
            check_aliases (opt_aliases o);
            check_string (opt_usage o) UsageNotString;
            check_string (opt_description o) DescriptionNotString;
            check_string (opt_type o) TypeNotString;
            (if truthy (opt_type o) && not_lowercase (opt_type o)
             then Some TypeNotLowercase else None);
            check_permissions (opt_clientPermissions o)
              ClientPermissionsNotArray InvalidClientPermission;
            check_permissions (opt_userPermissions o)
              UserPermissionsNotArray InvalidUserPermission;
            (if truthy (opt_ownerOnly o) && negb (is_boolean (opt_ownerOnly o))
             then Some OwnerOnlyNotBoolean else None) ]
    end.

(** The fields the constructor sets; [userPermssions] is spelt as the
    class spells it. *)
Record Command := {
  name : Value;
  aliases : Value;
  usage : Value;
  description : Value;
  type : Value;
  clientPermissions : Value;
  userPermssions : Value;
  ownerOnly : Value
}.

(** [new Command(client, options)]: the failure thrown, or the object. *)
Definition construct (client : bool) (options : Argument) : Failure + Command :=
  match validateOptions client options, options with
  | Some f, _ => inl f
  | None, Object o =>
      inr {| name := opt_name o;
             aliases := or_else (opt_aliases o) VNull;
             usage := or_else (opt_usage o) (VStr "");
             description := or_else (opt_description o) (VStr "");
             type := or_else (opt_type o) (VStr "general");
             clientPermissions :=
               or_else (opt_clientPermissions o) (VArr [VStr "SEND_MESSAGES"]);
             userPermssions := or_else (opt_userPermissions o) VNull;
             ownerOnly := or_else (opt_ownerOnly o) (VBool false) |}
  | None, _ => inl NativeTypeError
  end.

(** An optional property that is falsy counts as not given. *)
Definition given (v : Value) : Value := if truthy v then v else VUndefined.

Definition normalize (o : Options) : Options :=
  {| opt_name := opt_name o;
     opt_aliases := given (opt_aliases o);
     opt_usage := given (opt_usage o);
     opt_description := given (opt_description o);
     opt_type := given (opt_type o);
     opt_clientPermissions := given (opt_clientPermissions o);
     opt_userPermissions := given (opt_userPermissions o);
     opt_ownerOnly := given (opt_ownerOnly o) |}.

End Validate.

End Options.

(** ** The command [setmodrole]

    [SetModRoleCommand.run]. The roles of the guild are kept in the order of
    the collection, with their names, because [find] walks them. *)
Module SetModRole.

Record GuildRole := { role : Role; role_name : string }.

Record Message := {
  guild : string;
  guild_roles : list GuildRole;
  member : string
}.

(** The three answers of the command; [member] and [role] are the texts of
    [`${message.member}`] and [`${role}`]. *)
Inductive Reply :=
  | Cleared
  | NotRecognized (member : string)
  | Updated (role : string).

(** [updateModRoleId.run(id, guild)] and [message.channel.send(reply)]. *)
Inductive Effect :=
  | UpdateModRoleId (id : option string) (guild : string)
  | Send (reply : Reply).

(** [args.join(' ')] *)
Fixpoint join (args : list string) : string :=
  match args with
  | [] => ""
  | [a] => a
  | a :: rest => a +:+ " " +:+ join rest
  end.

(** [message.guild.roles.get(id)] *)
Definition roles_get (rs : list GuildRole) (id : string) : option GuildRole :=
  List.find (λ r, bool_decide (role_id (role r) = id)) rs.

Section Run.

Variable toLowerCase : string → string.

(** [message.guild.roles.find(r => r.name.toLowerCase() === roleName)] *)
Definition roles_find (rs : list GuildRole) (roleName : string) : option GuildRole :=
  List.find (λ r, bool_decide (toLowerCase (role_name r) = roleName)) rs.

Definition run (message : Message) (args : list string) : list Effect :=
  match args with
  | [] => [UpdateModRoleId None (guild message); Send Cleared]
  | _ =>
      let roleName := toLowerCase (join args) in
      let byName := roles_find (guild_roles message) roleName in
      let byMention :=
        Mention.from_mention Mention.role_id_of (roles_get (guild_roles message))
          (head args) in
      match (match byMention with Some r => Some r | None => byName end) with
      | None => [Send (NotRecognized (member message))]
      | Some r =>
          [UpdateModRoleId (Some (role_id (role r))) (guild message);
           Send (Updated (role_mention (role r)))]
      end
  end.

End Run.

End SetModRole.

(** ** Commands and messages to run the checks on *)
Module CommandScenario.

(** A command for moderators, as [setmodrole] declares itself. *)
Definition setmodrole : Permissions.Command string :=
  {| Permissions.name := "setmodrole";
     Permissions.ownerOnly := false;
     Permissions.userPermissions := Some ["MANAGE_GUILD"];
     Permissions.clientPermissions := ["SEND_MESSAGES"] |}.

(** A message whose author holds the permissions listed, in a guild where
    the bot may send messages. *)
Definition asked (owner : bool) (held : list string) : Permissions.Env string :=
  {| Permissions.isOwner := owner;
     Permissions.permissionsFor := Some (λ p, bool_decide (p ∈ held));
     Permissions.me := Some (λ p, bool_decide (p = "SEND_MESSAGES")) |}.

Definition label (p : string) : option string :=
  if bool_decide (p = "MANAGE_GUILD") then Some "Manage Server"
  else if bool_decide (p = "SEND_MESSAGES") then Some "Send Messages"
  else None.

(** The options [setmodrole] passes to the constructor. *)
Definition options : Options.Options :=
  {| Options.opt_name := Options.VStr "setmodrole";
     Options.opt_aliases := Options.VArr [Options.VStr "setmr"; Options.VStr "smr"];
     Options.opt_usage := Options.VStr "<ROLE MENTION | ROLE NAME>";
     Options.opt_description := Options.VStr "Sets the mod role for your server (provide no role to clear).";
     Options.opt_type := Options.VStr "admin";
     Options.opt_clientPermissions := Options.VUndefined;
     Options.opt_userPermissions := Options.VArr [Options.VStr "MANAGE_GUILD"];
     Options.opt_ownerOnly := Options.VUndefined |}.

(** A table that knows the two permissions above. *)
Definition known (perm : Options.Value) : bool :=
  match perm with
  | Options.VStr p => bool_decide (is_Some (label p))
  | _ => false
  end.

(** Lower case for the letters A to Z, to run the commands with. *)
Definition lower_char (c : ascii) : ascii :=
  let n := nat_of_ascii c in
  if (65 <=? n)%nat && (n <=? 90)%nat then ascii_of_nat (n + 32) else c.

Fixpoint lower (s : string) : string :=
  match s with
  | "" => ""
  | String c rest => String (lower_char c) (lower rest)
  end.

Definition message : SetModRole.Message :=
  {| SetModRole.guild := "42";
     SetModRole.guild_roles :=
       [{| SetModRole.role := {| role_id := "900"; role_mention := "<@&900>" |};
           SetModRole.role_name := "Crown" |};
        {| SetModRole.role := {| role_id := "901"; role_mention := "<@&901>" |};
           SetModRole.role_name := "Mod Team" |}];
     SetModRole.member := "<@7>" |}.

End CommandScenario.

(** * Properties *)

(** ** The strip phase *)

Section StripPhase.

Context (gw : Gateway) (defaultChannel : option Channel) (crownRole : Role).

Lemma strip_resume_events st l :
  strip_events (foldl (strip_resume gw defaultChannel crownRole) st l)
  = strip_events st ++ strip_notices gw defaultChannel crownRole l.
Proof.
  revert st. induction l as [|m l IH]; intros st; simpl.
  - unfold strip_notices. destruct defaultChannel; simpl; by rewrite app_nil_r.
  - rewrite IH. unfold strip_resume, strip_notices, failing.
    destruct (removeRole_ok gw (member_id m)) eqn:Hok.
    + rewrite filter_cons_False; [done | congruence].
    + rewrite filter_cons_True by done.
      destruct defaultChannel; simpl; [by rewrite <- app_assoc | done].
Qed.

Lemma strip_resume_quit st l :
  quit (foldl (strip_resume gw defaultChannel crownRole) st l)
  = quit st || (bool_decide (defaultChannel = None)
                && bool_decide (failing gw l ≠ [])).
Proof.
  revert st. induction l as [|m l IH]; intros st; simpl.
  - rewrite andb_false_r. by rewrite orb_false_r.
  - rewrite IH. unfold strip_resume, failing.
    destruct (removeRole_ok gw (member_id m)) eqn:Hok.
    + rewrite filter_cons_False; [done | congruence].
    + rewrite filter_cons_True by done.
      destruct defaultChannel; simpl; [done | by rewrite orb_true_r].
Qed.

Lemma strip_resume_rejected st l :
  defaultChannel = None →
  strip_rejected (foldl (strip_resume gw defaultChannel crownRole) st l) = strip_rejected st.
Proof.
  intros ->. revert st. induction l as [|m l IH]; intros st; simpl; [done|].
  rewrite IH. unfold strip_resume.
  by destruct (removeRole_ok gw (member_id m)).
Qed.

Lemma strip_issue_removes hs :
  Forall (λ e, is_remove e) (strip_issue gw crownRole hs).
Proof. unfold strip_issue. apply Forall_fmap, Forall_true. by intros m. Qed.

Lemma strip_notices_sends hs :
  Forall (λ e, is_strip_notice e) (strip_notices gw defaultChannel crownRole hs).
Proof.
  unfold strip_notices. destruct defaultChannel; [|constructor].
  apply Forall_fmap, Forall_true. by intros m.
Qed.

Lemma strip_notices_length hs hs' :
  hs' ≡ₚ hs →
  length (strip_notices gw defaultChannel crownRole hs')
  = length (strip_notices gw defaultChannel crownRole hs).
Proof.
  intros Hp. unfold strip_notices, failing. destruct defaultChannel; [|done].
  rewrite !length_fmap. by rewrite Hp.
Qed.

Lemma failing_nil_perm hs hs' :
  hs' ≡ₚ hs → failing gw hs' ≠ [] ↔ failing gw hs ≠ [].
Proof.
  intros Hp. unfold failing.
  split; intros H Hnil; apply H; apply Permutation_nil_r.
  - by rewrite Hp, Hnil.
  - by rewrite <- Hp, Hnil.
Qed.

End StripPhase.

Lemma strip_phase_events gw ch role guild :
  strip_events (strip_phase gw ch role guild)
  = strip_issue gw role (holders guild role)
    ++ strip_notices gw ch role (settle gw (holders guild role)).
Proof. unfold strip_phase. by rewrite strip_resume_events. Qed.

Lemma strip_phase_quit gw ch role guild :
  quit (strip_phase gw ch role guild)
  = bool_decide (ch = None)
    && bool_decide (failing gw (settle gw (holders guild role)) ≠ []).
Proof. unfold strip_phase. by rewrite strip_resume_quit. Qed.
















(** ** Clearing the points *)


(** ** What follows the strip phase *)

Lemma announce_report gw client guild role ch winner :
  Forall (λ e, is_report e) (trace (announce gw client guild role ch winner)).
Proof.
  unfold announce.
  destruct (selectCrownMessage client (guild_id guild)) as [t|], winner, ch;
    simpl; repeat case_bool_decide; simpl; repeat case_bool_decide;
    by repeat constructor.
Qed.

Lemma grant_catch_report gw client guild role ch winner :
  Forall (λ e, is_report e) (trace (grant_catch gw client guild role ch winner)).
Proof.
  unfold grant_catch. destruct ch; [by repeat constructor|].
  apply announce_report.
Qed.

Lemma grant_phase_not_strip gw client guild role ch winner :
  Forall (λ e, ¬ is_strip e) (trace (grant_phase gw client guild role ch winner)).
Proof.
  assert (∀ l, Forall (λ e, is_report e) l → Forall (λ e : Event, ¬ is_strip e) l) as Hrep.
  { intros l Hl. eapply Forall_impl; [exact Hl|].
    intros e He Hs. destruct e as [| | |? []|]; by simpl in *. }
  unfold grant_phase. destruct winner as [w|].
  - destruct (addRole_ok gw (member_id w)); unfold prepend; cbn [trace app].
    + do 2 (constructor; [by intros []|]). apply Hrep, announce_report.
    + constructor; [by intros []|]. apply Hrep, grant_catch_report.
  - apply Hrep, grant_catch_report.
Qed.

Lemma failing_exists gw hs :
  failing gw hs ≠ [] ↔ ∃ m, m ∈ hs ∧ removeRole_ok gw (member_id m) = false.
Proof.
  unfold failing. split.
  - destruct (filter _ hs) as [|m l] eqn:Hf; [done|]. intros _.
    assert (m ∈ filter (λ m, removeRole_ok gw (member_id m) = false) hs) as Hm
      by (rewrite Hf; left).
    apply list_elem_of_filter in Hm as [? ?]. by exists m.
  - intros (m & Hm & Hok) Hnil.
    assert (m ∈ filter (λ m, removeRole_ok gw (member_id m) = false) hs) as Hin
      by by apply list_elem_of_filter.
    rewrite Hnil in Hin. by apply elem_of_nil in Hin.
Qed.

Lemma strip_phase_quit_iff gw ch role guild :
  settles_all gw →
  quit (strip_phase gw ch role guild) = true
  ↔ ch = None ∧ ∃ m, m ∈ holders guild role ∧ removeRole_ok gw (member_id m) = false.
Proof.
  intros Hs. rewrite strip_phase_quit, andb_true_iff, !bool_decide_eq_true.
  by rewrite (failing_nil_perm gw _ _ (Hs _)), failing_exists.
Qed.

Lemma strip_phase_no_channel gw role guild :
  strip_events (strip_phase gw None role guild) = strip_issue gw role (holders guild role)
  ∧ strip_rejected (strip_phase gw None role guild) = false.
Proof.
  split.
  - rewrite strip_phase_events. apply app_nil_r.
  - unfold strip_phase. by rewrite strip_resume_rejected.
Qed.

Lemma filter_remove_strip_issue gw role hs :
  filter (λ e, is_remove e) (strip_issue gw role hs) = strip_issue gw role hs.
Proof.
  unfold strip_issue. induction hs as [|m hs IH]; [done|].
  rewrite fmap_cons, filter_cons_True by done. by rewrite IH.
Qed.

Lemma filter_remove_none l :
  Forall (λ e, ¬ is_remove e) l → filter (λ e, is_remove e) l = [].
Proof.
  induction 1 as [|e l He _ IH]; [done|]. by rewrite filter_cons_False.
Qed.

(** With a leaderboard that has a first row, the trace starts with one
    [removeRole] per holder, and no [removeRole] comes later. *)
Lemma rotateCrown_fan_out gw client guild role :
  selectLeaderboard client (guild_id guild) ≠ [] →
  ∃ rest, trace (rotateCrown gw client guild role)
          = strip_issue gw role (holders guild role) ++ rest
        ∧ Forall (λ e, ¬ is_remove e) rest.
Proof.
  intros Hlb. unfold rotateCrown.
  destruct (selectLeaderboard client (guild_id guild)) as [|top lb]; [done|].
  set (ch := defaultChannel_of client guild).
  assert (Forall (λ e : Event, ¬ is_remove e)
            (strip_notices gw ch role (settle gw (holders guild role)))) as Hn.
  { eapply Forall_impl; [apply strip_notices_sends|].
    intros e He Hr. destruct e; by simpl in *. }
  destruct (strip_rejected _); [|destruct (quit _)]; cbn [trace prepend];
    rewrite strip_phase_events.
  - by eexists.
  - by eexists.
  - rewrite <- app_assoc. eexists. split; [done|].
    apply Forall_app. split; [done|].
    eapply Forall_impl; [apply grant_phase_not_strip|].
    intros e He Hr. apply He. unfold is_strip. by destruct (is_remove e).
Qed.

Lemma rotateCrown_removes gw client guild role :
  selectLeaderboard client (guild_id guild) ≠ [] →
  filter (λ e, is_remove e) (trace (rotateCrown gw client guild role))
  = strip_issue gw role (holders guild role).
Proof.
  intros Hlb. destruct (rotateCrown_fan_out gw client guild role Hlb) as (rest & -> & Hrest).
  rewrite filter_app, filter_remove_strip_issue, filter_remove_none by done.
  apply app_nil_r.
Qed.

Lemma Scenario_gateway_settles rejecting : settles_all (Scenario.gateway rejecting).
Proof. intros l. apply reverse_Permutation. Qed.

Lemma strip_events_strip gw ch role guild :
  Forall (λ e, is_strip e) (strip_events (strip_phase gw ch role guild)).
Proof.
  rewrite strip_phase_events. apply Forall_app. split.
  - eapply Forall_impl; [apply strip_issue_removes|].
    intros e He. simpl in He. unfold is_strip. by destruct (is_remove e).
  - eapply Forall_impl; [apply strip_notices_sends|].
    intros e He. simpl in He. unfold is_strip.
    by destruct (is_remove e), (is_strip_notice e).
Qed.

(** After the strip phase nothing of the strip phase is left to happen. *)
Lemma rotateCrown_barrier gw client guild role :
  selectLeaderboard client (guild_id guild) ≠ [] →
  ∃ rest, trace (rotateCrown gw client guild role)
          = strip_events (strip_phase gw (defaultChannel_of client guild) role guild) ++ rest
        ∧ Forall (λ e, ¬ is_strip e) rest.
Proof.
  intros Hlb. unfold rotateCrown.
  destruct (selectLeaderboard client (guild_id guild)) as [|top lb]; [done|].
  destruct (strip_rejected _); [|destruct (quit _)]; cbn [trace prepend].
  - exists []. by rewrite app_nil_r.
  - exists []. by rewrite app_nil_r.
  - eexists. split; [done|]. apply grant_phase_not_strip.
Qed.

Lemma rotateCrown_quit gw client guild role :
  selectLeaderboard client (guild_id guild) ≠ [] →
  defaultChannel_of client guild = None →
  quit (strip_phase gw None role guild) = true →
  rotateCrown gw client guild role
  = {| trace := strip_issue gw role (holders guild role); outcome := Resolved |}.
Proof.
  intros Hlb Hch Hq. unfold rotateCrown.
  destruct (selectLeaderboard client (guild_id guild)) as [|top lb]; [done|].
  rewrite Hch, Hq.
  destruct (strip_phase_no_channel gw role guild) as [-> ->]. done.
Qed.

Lemma rotateCrown_no_first_row gw client guild role :
  selectLeaderboard client (guild_id guild) = [] →
  rotateCrown gw client guild role = {| trace := []; outcome := Rejected TypeError |}.
Proof. intros Hlb. unfold rotateCrown. by rewrite Hlb. Qed.

(** ** The empty leaderboard and the absent winner *)

(** C4. With an empty leaderboard [rotateCrown] issues no call at all (no
    [removeRole], no [addRole], no [clearPoints], no message), but its promise
    is rejected with the [TypeError] of [leaderboard[0].user_id]: the cycle
    does raise an error. *)
Theorem rotateCrown_empty_leaderboard gw client guild crownRole :
  selectLeaderboard client (guild_id guild) = [] →
  trace (rotateCrown gw client guild crownRole) = []
  ∧ outcome (rotateCrown gw client guild crownRole) = Rejected TypeError.
Proof. intros Hlb. by rewrite rotateCrown_no_first_row. Qed.

Lemma rotateCrown_empty_leaderboard_witness :
  selectLeaderboard (Scenario.client (Some "500") None []) (guild_id Scenario.guild) = []
  ∧ trace (rotateCrown (Scenario.gateway []) (Scenario.client (Some "500") None [])
             Scenario.guild Scenario.crown) = []
  ∧ outcome (rotateCrown (Scenario.gateway []) (Scenario.client (Some "500") None [])
               Scenario.guild Scenario.crown) = Rejected TypeError.
Proof.
  split; [reflexivity|].
  apply (rotateCrown_empty_leaderboard (Scenario.gateway [])
           (Scenario.client (Some "500") None []) Scenario.guild Scenario.crown).
  reflexivity.
Defined.

(** C5. When the first row of the leaderboard names a user who is not a
    member, [rotateCrown] issues no [addRole] and no [clearPoints], but it
    does issue a [removeRole] to every holder of the role: the strip phase
    runs before the winner is looked at. *)
Theorem rotateCrown_absent_winner_strips gw client guild crownRole top lb :
  selectLeaderboard client (guild_id guild) = top :: lb →
  members_get (members guild) (user_id top) = None →
  let tr := trace (rotateCrown gw client guild crownRole) in
  filter (λ e, is_remove e) tr = strip_issue gw crownRole (holders guild crownRole)
  ∧ Forall (λ e, ¬ is_add e ∧ ¬ is_clear e) tr.
Proof.
  intros Hlb Hw tr. subst tr. split.
  { apply rotateCrown_removes. by rewrite Hlb. }
  unfold rotateCrown. rewrite Hlb, Hw.
  assert (Forall (λ e : Event, ¬ is_add e ∧ ¬ is_clear e)
    (strip_events (strip_phase gw (defaultChannel_of client guild) crownRole guild))) as Hs.
  { eapply Forall_impl; [apply strip_events_strip|].
    intros e He. destruct e as [| | |? []|]; simpl in *; tauto. }
  destruct (strip_rejected _); [done|]. destruct (quit _); [done|].
  cbn [trace prepend grant_phase]. apply Forall_app. split; [done|].
  eapply Forall_impl; [apply grant_catch_report|].
  intros e He. destruct e as [| | |? []|]; simpl in *; tauto.
Qed.

Lemma rotateCrown_absent_winner_strips_witness :
  selectLeaderboard (Scenario.client (Some "500") None (Scenario.top "999"))
    (guild_id Scenario.guild) = {| user_id := "999"; points := 50 |} :: []
  ∧ members_get (members Scenario.guild) "999" = None
  ∧ filter (λ e, is_remove e)
      (trace (rotateCrown (Scenario.gateway [])
                (Scenario.client (Some "500") None (Scenario.top "999"))
                Scenario.guild Scenario.crown))
    = strip_issue (Scenario.gateway []) Scenario.crown
        (holders Scenario.guild Scenario.crown)
  ∧ Forall (λ e, ¬ is_add e ∧ ¬ is_clear e)
      (trace (rotateCrown (Scenario.gateway [])
                (Scenario.client (Some "500") None (Scenario.top "999"))
                Scenario.guild Scenario.crown)).
Proof.
  split; [reflexivity|]. split; [reflexivity|].
  apply (rotateCrown_absent_winner_strips (Scenario.gateway [])
           (Scenario.client (Some "500") None (Scenario.top "999"))
           Scenario.guild Scenario.crown
           {| user_id := "999"; points := 50 |} []); reflexivity.
Defined.

(** C6. A rejection of [rotateCrown] is not kept inside the executor: with an
    empty leaderboard the promise that the timer callback drops is rejected,
    so the process sees an unhandled rejection. *)
Theorem fire_empty_leaderboard_unhandled gw client guild j :
  selectLeaderboard client (guild_id guild) = [] →
  unhandledRejection (fire gw client guild j) = Some TypeError.
Proof. intros Hlb. unfold fire. by rewrite rotateCrown_no_first_row. Qed.

Lemma fire_empty_leaderboard_unhandled_witness :
  selectLeaderboard (Scenario.client None None []) (guild_id Scenario.guild) = []
  ∧ unhandledRejection
      (fire (Scenario.gateway []) (Scenario.client None None []) Scenario.guild
         {| Schedule.job_name := 1; Schedule.job_rule := "0 0 * * 5";
            Schedule.job_guild := "42"; Schedule.job_role := Scenario.crown |})
    = Some TypeError.
Proof.
  split; [reflexivity|].
  apply (fire_empty_leaderboard_unhandled (Scenario.gateway [])
           (Scenario.client None None []) Scenario.guild). reflexivity.
Defined.

(** ** The strip phase as a whole *)

(** C7. Whenever the strip phase runs, a [removeRole] is issued for every
    member holding the crown role, whatever the other attempts answer; these
    calls open the trace and none comes later; [quit] is set exactly when
    there is no default channel and some attempt among all the holders'
    failed; and what follows the strip phase comes after all of its calls,
    and is nothing when [quit] is set. *)
Theorem strip_fans_out_before_decision gw client guild crownRole :
  settles_all gw →
  selectLeaderboard client (guild_id guild) ≠ [] →
  let ch := defaultChannel_of client guild in
  let st := strip_phase gw ch crownRole guild in
  let r := rotateCrown gw client guild crownRole in
  (∀ m, m ∈ members guild → role_id crownRole ∈ member_roles m →
     EvRemoveRole (member_id m) (role_id crownRole) (removeRole_ok gw (member_id m))
       ∈ trace r)
  ∧ (∃ rest, trace r = strip_issue gw crownRole (holders guild crownRole) ++ rest
             ∧ Forall (λ e, ¬ is_remove e) rest)
  ∧ (quit st = true
     ↔ ch = None ∧ ∃ m, m ∈ holders guild crownRole
                        ∧ removeRole_ok gw (member_id m) = false)
  ∧ (∃ rest, trace r = strip_events st ++ rest
             ∧ Forall (λ e, ¬ is_strip e) rest
             ∧ (quit st = true → rest = [] ∧ outcome r = Resolved)).
Proof.
  intros Hs Hlb ch st r. subst ch st r. split_and!.
  - intros m Hm Hrole.
    destruct (rotateCrown_fan_out gw client guild crownRole Hlb) as (rest & -> & _).
    apply elem_of_app. left. unfold strip_issue.
    apply (list_elem_of_fmap_2
             (λ m, EvRemoveRole (member_id m) (role_id crownRole)
                     (removeRole_ok gw (member_id m)))).
    unfold holders. by apply list_elem_of_filter.
  - by apply rotateCrown_fan_out.
  - by apply strip_phase_quit_iff.
  - destruct (rotateCrown_barrier gw client guild crownRole Hlb) as (rest & Htr & Hrest).
    exists rest. split_and!; [done..|]. intros Hq.
    pose proof Hq as Hq'. apply strip_phase_quit_iff in Hq' as [Hch _]; [|done].
    rewrite Hch in Hq, Htr.
    rewrite (rotateCrown_quit gw client guild crownRole Hlb Hch Hq) in Htr |- *.
    destruct (strip_phase_no_channel gw crownRole guild) as [Hev _].
    rewrite Hev in Htr. cbn [trace outcome] in *. split; [|done].
    apply (f_equal length) in Htr. rewrite length_app in Htr.
    apply length_zero_iff_nil. lia.
Qed.

Lemma strip_fans_out_before_decision_witness :
  settles_all (Scenario.gateway ["2"])
  ∧ selectLeaderboard (Scenario.client None None (Scenario.top "7"))
      (guild_id Scenario.guild) ≠ []
  ∧ ∃ rest,
      trace (rotateCrown (Scenario.gateway ["2"])
               (Scenario.client None None (Scenario.top "7"))
               Scenario.guild Scenario.crown)
      = strip_issue (Scenario.gateway ["2"]) Scenario.crown
          (holders Scenario.guild Scenario.crown) ++ rest
      ∧ Forall (λ e, ¬ is_remove e) rest.
Proof.
  split; [apply Scenario_gateway_settles|]. split; [discriminate|].
  apply (strip_fans_out_before_decision (Scenario.gateway ["2"])
           (Scenario.client None None (Scenario.top "7"))
           Scenario.guild Scenario.crown);
    [apply Scenario_gateway_settles | discriminate].
Defined.

(** C10. When no default channel is resolved and some [removeRole] of the
    strip phase fails, the cycle issues no [addRole] and no [clearPoints];
    with a leaderboard that has a first row, it issues the [removeRole] calls
    and nothing else, and returns. Moreover [quit] is set only when the
    channel is absent and a [removeRole] failed. *)
Theorem strip_failure_without_channel_aborts gw client guild crownRole :
  settles_all gw →
  defaultChannel_of client guild = None →
  (∃ m, m ∈ holders guild crownRole ∧ removeRole_ok gw (member_id m) = false) →
  let r := rotateCrown gw client guild crownRole in
  Forall (λ e, ¬ is_add e ∧ ¬ is_clear e) (trace r)
  ∧ (selectLeaderboard client (guild_id guild) ≠ [] →
     r = {| trace := strip_issue gw crownRole (holders guild crownRole);
            outcome := Resolved |})
  ∧ (∀ ch, quit (strip_phase gw ch crownRole guild) = true →
       ch = None ∧ ∃ m, m ∈ holders guild crownRole
                        ∧ removeRole_ok gw (member_id m) = false).
Proof.
  intros Hs Hch Hfail r. subst r.
  assert (quit (strip_phase gw None crownRole guild) = true) as Hq
    by by apply strip_phase_quit_iff.
  split_and!.
  - destruct (selectLeaderboard client (guild_id guild)) as [|top lb] eqn:Hlb.
    + rewrite rotateCrown_no_first_row by done. constructor.
    + rewrite rotateCrown_quit by (done || by rewrite Hlb). cbn [trace].
      eapply Forall_impl; [apply strip_issue_removes|].
      intros e He. destruct e; simpl in *; tauto.
  - intros Hlb. by apply rotateCrown_quit.
  - intros ch Hq'. by apply strip_phase_quit_iff in Hq'.
Qed.

Lemma strip_failure_without_channel_aborts_witness :
  settles_all (Scenario.gateway ["2"])
  ∧ defaultChannel_of (Scenario.client None None (Scenario.top "7")) Scenario.guild = None
  ∧ rotateCrown (Scenario.gateway ["2"])
      (Scenario.client None None (Scenario.top "7")) Scenario.guild Scenario.crown
    = {| trace := [EvRemoveRole "1" "900" true; EvRemoveRole "2" "900" false;
                   EvRemoveRole "3" "900" true];
         outcome := Resolved |}.
Proof.
  split; [apply Scenario_gateway_settles|]. split; [reflexivity|].
  apply (strip_failure_without_channel_aborts (Scenario.gateway ["2"])
           (Scenario.client None None (Scenario.top "7"))
           Scenario.guild Scenario.crown).
  - apply Scenario_gateway_settles.
  - reflexivity.
  - exists (Scenario.member "2" "M2" true). split; [|reflexivity].
    unfold holders. apply list_elem_of_filter. split; [set_solver|].
    right. left.
  - discriminate.
Defined.

(** ** Strip failures with a default channel *)

Lemma filter_notice_strip_issue gw role hs :
  filter (λ e, is_strip_notice e) (strip_issue gw role hs) = [].
Proof.
  unfold strip_issue. induction hs as [|m hs IH]; [done|].
  rewrite fmap_cons, filter_cons_False; [done | intros H; exact H].
Qed.

Lemma filter_notice_strip_notices gw ch role hs :
  filter (λ e, is_strip_notice e) (strip_notices gw ch role hs)
  = strip_notices gw ch role hs.
Proof.
  unfold strip_notices. destruct ch as [c|]; [|done].
  induction (failing gw hs) as [|m l IH]; [done|].
  rewrite fmap_cons, filter_cons_True by done. by rewrite IH.
Qed.

Lemma filter_notice_none l :
  Forall (λ e, ¬ is_strip e) l → filter (λ e, is_strip_notice e) l = [].
Proof.
  induction 1 as [|e l He _ IH]; [done|].
  rewrite filter_cons_False; [done|].
  intros Hn. apply He. unfold is_strip. by destruct (is_remove e), (is_strip_notice e).
Qed.

Lemma rotateCrown_strip_notices gw client guild role :
  selectLeaderboard client (guild_id guild) ≠ [] →
  filter (λ e, is_strip_notice e) (trace (rotateCrown gw client guild role))
  = strip_notices gw (defaultChannel_of client guild) role (settle gw (holders guild role)).
Proof.
  intros Hlb.
  destruct (rotateCrown_barrier gw client guild role Hlb) as (rest & -> & Hrest).
  rewrite strip_phase_events, !filter_app.
  rewrite filter_notice_strip_issue, filter_notice_strip_notices, filter_notice_none by done.
  by rewrite app_nil_r.
Qed.

(** C2, as the code has it. With a default channel and a leaderboard that has
    a first row, one diagnostic notice is sent for each failing [removeRole]
    of the strip phase, not only for the first. *)
Theorem strip_notice_per_failure gw client guild crownRole ch :
  settles_all gw →
  selectLeaderboard client (guild_id guild) ≠ [] →
  defaultChannel_of client guild = Some ch →
  let tr := trace (rotateCrown gw client guild crownRole) in
  length (filter (λ e, is_strip_notice e) tr)
  = length (failing gw (holders guild crownRole))
  ∧ ∀ m, m ∈ holders guild crownRole → removeRole_ok gw (member_id m) = false →
      EvSend (channel_id ch)
        (StripNotice (role_mention crownRole) (member_mention m))
        (send_ok gw (StripNotice (role_mention crownRole) (member_mention m))) ∈ tr.
Proof.
  intros Hs Hlb Hch tr. subst tr. split.
  - rewrite rotateCrown_strip_notices by done.
    rewrite (strip_notices_length gw _ crownRole _ _ (Hs _)).
    rewrite Hch. unfold strip_notices. by rewrite length_fmap.
  - intros m Hm Hok.
    set (notice := λ m : Member,
           EvSend (channel_id ch)
             (StripNotice (role_mention crownRole) (member_mention m))
             (send_ok gw (StripNotice (role_mention crownRole) (member_mention m)))).
    assert (notice m ∈ filter (λ e, is_strip_notice e)
              (trace (rotateCrown gw client guild crownRole))) as Hin.
    { rewrite rotateCrown_strip_notices, Hch by done. unfold strip_notices.
      apply (list_elem_of_fmap_2 notice).
      unfold failing. apply list_elem_of_filter. split; [done|]. by rewrite (Hs _). }
    by apply list_elem_of_filter in Hin as [_ ?].
Qed.

Lemma strip_notice_per_failure_witness :
  settles_all (Scenario.gateway ["2"; "3"])
  ∧ selectLeaderboard (Scenario.client (Some "500") None (Scenario.top "7"))
      (guild_id Scenario.guild) ≠ []
  ∧ defaultChannel_of (Scenario.client (Some "500") None (Scenario.top "7"))
      Scenario.guild = Some {| channel_id := "500" |}
  ∧ length (filter (λ e, is_strip_notice e)
      (trace (rotateCrown (Scenario.gateway ["2"; "3"])
                (Scenario.client (Some "500") None (Scenario.top "7"))
                Scenario.guild Scenario.crown)))
    = length (failing (Scenario.gateway ["2"; "3"])
                (holders Scenario.guild Scenario.crown)).
Proof.
  split; [apply Scenario_gateway_settles|]. split; [discriminate|].
  split; [reflexivity|].
  apply (strip_notice_per_failure (Scenario.gateway ["2"; "3"])
           (Scenario.client (Some "500") None (Scenario.top "7"))
           Scenario.guild Scenario.crown {| channel_id := "500" |});
    [apply Scenario_gateway_settles | discriminate | reflexivity].
Defined.

(** C2, as stated, fails: two holders' [removeRole] reject while a default
    channel is configured; two notices are sent, [quit] stays unset, and the
    cycle goes on to [addRole] and [clearPoints]. *)
Lemma strip_failure_with_channel_goes_on :
  defaultChannel_of (Scenario.client (Some "500") None (Scenario.top "7"))
    Scenario.guild = Some {| channel_id := "500" |}
  ∧ quit (strip_phase (Scenario.gateway ["2"; "3"]) (Some {| channel_id := "500" |})
            Scenario.crown Scenario.guild) = false
  ∧ rotateCrown (Scenario.gateway ["2"; "3"])
      (Scenario.client (Some "500") None (Scenario.top "7"))
      Scenario.guild Scenario.crown
    = {| trace :=
           [EvRemoveRole "1" "900" true; EvRemoveRole "2" "900" false;
            EvRemoveRole "3" "900" false;
            EvSend "500" (StripNotice "<@&900>" "<@3>") true;
            EvSend "500" (StripNotice "<@&900>" "<@2>") true;
            EvAddRole "7" "900" true; EvClearPoints "42";
            EvLogInfo "Calypso: Successfully transferred crown role to U1 and cleared points"];
         outcome := Resolved |}.
Proof. split_and!; reflexivity. Qed.

(** ** Scheduling *)

Lemma scheduleCrown_eligible parses client t guild role rule :
  JS.truthy_int (selectUsePoints client (guild_id guild)) = true →
  crownRole_of client guild = Some role →
  selectCrownSchedule client (guild_id guild) = Some rule →
  rule ≠ "" →
  scheduleCrown parses client t guild
  = (let '(t', handle) := Schedule.scheduleJob parses t rule (guild_id guild) role in
     (t', set_job guild handle,
      [EvLogInfo (guild_name guild +:+ ": Successfully scheduled job")])).
Proof.
  intros Hen Hrole Hrule Hne. unfold scheduleCrown.
  rewrite Hen, Hrole, Hrule. simpl. by rewrite bool_decide_true.
Qed.

(** C3, as the code has it. When the configuration qualifies and the rule is
    accepted, [scheduleCrown] arms one more job and cancels none: the jobs
    armed before are all still armed, the guild has one more armed job than
    before, and [guild.job] refers to the new one only. *)
Theorem scheduleCrown_adds_without_cancelling parses client t guild role rule :
  JS.truthy_int (selectUsePoints client (guild_id guild)) = true →
  crownRole_of client guild = Some role →
  selectCrownSchedule client (guild_id guild) = Some rule →
  rule ≠ "" →
  parses rule = true →
  let new := {| Schedule.job_name := S (Schedule.anonJobCounter t);
                Schedule.job_rule := rule;
                Schedule.job_guild := guild_id guild;
                Schedule.job_role := role |} in
  let r := scheduleCrown parses client t guild in
  Schedule.scheduledJobs r.1.1 = Schedule.scheduledJobs t ++ [new]
  ∧ Schedule.armed_for (guild_id guild) r.1.1
    = Schedule.armed_for (guild_id guild) t ++ [new]
  ∧ job r.1.2 = Some (S (Schedule.anonJobCounter t)).
Proof.
  intros Hen Hrole Hrule Hne Hp new r. subst r.
  rewrite (scheduleCrown_eligible parses client t guild role rule) by done.
  unfold Schedule.scheduleJob. rewrite Hp. cbn [fst snd set_job job Schedule.scheduledJobs].
  split_and!; [done | | done].
  unfold Schedule.armed_for. cbn [Schedule.scheduledJobs].
  rewrite filter_app. f_equal. by rewrite filter_cons_True.
Qed.

Lemma scheduleCrown_adds_without_cancelling_witness :
  JS.truthy_int (selectUsePoints (Scenario.client (Some "500") None (Scenario.top "7"))
                   (guild_id Scenario.once.1.2)) = true
  ∧ crownRole_of (Scenario.client (Some "500") None (Scenario.top "7")) Scenario.once.1.2
    = Some Scenario.crown
  ∧ Schedule.armed_for "42" Scenario.twice.1.1
    = Schedule.armed_for "42" Scenario.once.1.1
      ++ [{| Schedule.job_name := 2; Schedule.job_rule := "0 0 * * 5";
             Schedule.job_guild := "42"; Schedule.job_role := Scenario.crown |}].
Proof.
  split; [reflexivity|]. split; [reflexivity|].
  apply (scheduleCrown_adds_without_cancelling (λ _, true)
           (Scenario.client (Some "500") None (Scenario.top "7"))
           Scenario.once.1.1 Scenario.once.1.2 Scenario.crown "0 0 * * 5");
    [reflexivity | reflexivity | reflexivity | discriminate | reflexivity].
Defined.

(** C3, as stated, fails: after a second call of [scheduleCrown] for the
    same guild two jobs are armed for it, the first one among them, and
    [guild.job] only knows the second. *)
Lemma scheduleCrown_twice_two_timers :
  Schedule.armed_for "42" Scenario.once.1.1
  = [{| Schedule.job_name := 1; Schedule.job_rule := "0 0 * * 5";
        Schedule.job_guild := "42"; Schedule.job_role := Scenario.crown |}]
  ∧ Schedule.armed_for "42" Scenario.twice.1.1
    = [{| Schedule.job_name := 1; Schedule.job_rule := "0 0 * * 5";
          Schedule.job_guild := "42"; Schedule.job_role := Scenario.crown |};
       {| Schedule.job_name := 2; Schedule.job_rule := "0 0 * * 5";
          Schedule.job_guild := "42"; Schedule.job_role := Scenario.crown |}]
  ∧ job Scenario.twice.1.2 = Some 2.
Proof. split_and!; reflexivity. Qed.

(** C8. For a guild whose rotation configuration does not qualify (enabled
    flag false, role reference missing or naming no role of the guild,
    schedule expression absent) [scheduleCrown] installs no job: the timer
    table and the guild object are returned as they were. *)
Theorem scheduleCrown_ineligible_installs_nothing parses client t guild :
  ineligible client guild →
  scheduleCrown parses client t guild
  = (t, guild, [EvLogInfo (guild_name guild +:+ ": Successfully scheduled job")]).
Proof.
  unfold ineligible, scheduleCrown, crownRole_of.
  intros [Hen|[Hid|[(id & Hid & Hrole)|Hcron]]].
  - rewrite Hen. simpl. by repeat case_match.
  - rewrite Hid. by repeat case_match.
  - rewrite Hid. simpl. rewrite Hrole. by repeat case_match.
  - rewrite Hcron. rewrite andb_false_r. by repeat case_match.
Qed.

Lemma scheduleCrown_ineligible_installs_nothing_witness :
  ineligible
    {| selectDefaultChannelId := λ _, None; selectCrownMessage := λ _, None;
       selectUsePoints := λ _, Some 0%Z; selectCrownRoleId := λ _, Some "900";
       selectCrownSchedule := λ _, Some "0 0 * * 5"; selectLeaderboard := λ _, [] |}
    Scenario.guild
  ∧ scheduleCrown (λ _, true)
      {| selectDefaultChannelId := λ _, None; selectCrownMessage := λ _, None;
         selectUsePoints := λ _, Some 0%Z; selectCrownRoleId := λ _, Some "900";
         selectCrownSchedule := λ _, Some "0 0 * * 5"; selectLeaderboard := λ _, [] |}
      Scenario.timers Scenario.guild
    = (Scenario.timers, Scenario.guild,
       [EvLogInfo "Calypso: Successfully scheduled job"]).
Proof.
  split; [left; reflexivity|].
  apply (scheduleCrown_ineligible_installs_nothing (λ _, true)). left. reflexivity.
Defined.

(** ** Rendering the crown message *)

Lemma prefix_append pat post : String.prefix pat (pat +:+ post) = true.
Proof.
  induction pat as [|c pat IH]; simpl; [by destruct post|].
  by destruct (ascii_dec c c).
Qed.

Lemma take_append pre s : JS.take (String.length pre) (pre +:+ s) = pre.
Proof. induction pre as [|c pre IH]; simpl; [by destruct s | by rewrite IH]. Qed.

Lemma drop_append pre s : JS.drop (String.length pre) (pre +:+ s) = s.
Proof. induction pre as [|c pre IH]; simpl; [by destruct s | done]. Qed.

Lemma drop_append_more pre s n :
  JS.drop (String.length pre + n) (pre +:+ s) = JS.drop n s.
Proof. induction pre as [|c pre IH]; simpl; done. Qed.

Lemma getSubstitution_plain matched before after rep :
  dollar_free rep = true → JS.getSubstitution matched before after rep = rep.
Proof.
  induction rep as [|c rep IH]; simpl; [done|].
  rewrite andb_true_iff, negb_true_iff. intros [Hc Hrep].
  rewrite Hc. by rewrite IH.
Qed.

Lemma indexOf_unfold pat s :
  JS.indexOf pat s
  = if String.prefix pat s then Some 0
    else match s with
         | "" => None
         | String _ s' => S <$> JS.indexOf pat s'
         end.
Proof. by destruct s. Qed.

Lemma indexOf_first pat pre post :
  none_before pat (pre +:+ pat +:+ post) (String.length pre) →
  JS.indexOf pat (pre +:+ pat +:+ post) = Some (String.length pre).
Proof.
  induction pre as [|c pre IH]; intros Hnone.
  - change ("" +:+ pat +:+ post) with (pat +:+ post).
    by rewrite indexOf_unfold, prefix_append.
  - pose proof (Hnone 0 ltac:(simpl; lia)) as H0. unfold occurs_at in H0.
    cbn [JS.drop] in H0. rewrite indexOf_unfold, H0.
    simpl. rewrite IH; [done|].
    intros j Hj. apply (Hnone (S j)). simpl. lia.
Qed.

(** When [pat] occurs first at the end of [pre], [replace] puts the
    replacement there and keeps what follows as it is. *)
Lemma replace_first_occurrence pat rep pre post :
  none_before pat (pre +:+ pat +:+ post) (String.length pre) →
  dollar_free rep = true →
  JS.replace (pre +:+ pat +:+ post) pat rep = pre +:+ rep +:+ post.
Proof.
  intros Hnone Hrep. unfold JS.replace. rewrite indexOf_first by done.
  rewrite take_append, drop_append_more, drop_append.
  by rewrite getSubstitution_plain.
Qed.

Lemma prefix_true_split pat s :
  String.prefix pat s = true → s = pat +:+ JS.drop (String.length pat) s.
Proof.
  revert s. induction pat as [|a pat IH]; intros s Hp.
  - by destruct s.
  - destruct s as [|b s]; [done|]. simpl in Hp.
    destruct (ascii_dec a b) as [->|]; [|done].
    change (String b s = String b (pat +:+ JS.drop (String.length pat) s)).
    f_equal. by apply IH.
Qed.

Lemma drop_empty j : JS.drop j "" = "".
Proof. by destruct j. Qed.

Lemma indexOf_None_nowhere pat s :
  JS.indexOf pat s = None → ∀ j, occurs_at pat s j = false.
Proof.
  induction s as [|c s IH]; rewrite indexOf_unfold;
    destruct (String.prefix pat _) eqn:Hp; try done.
  - intros _ j. unfold occurs_at. by rewrite drop_empty.
  - intros Hs. destruct (JS.indexOf pat s) eqn:Hi; [done|].
    intros [|j]; [done|]. by apply IH.
Qed.

Lemma indexOf_Some_split pat s n :
  JS.indexOf pat s = Some n →
  ∃ pre post, s = pre +:+ pat +:+ post
              ∧ String.length pre = n ∧ none_before pat s n.
Proof.
  revert n. induction s as [|c s IH]; intros n; rewrite indexOf_unfold;
    destruct (String.prefix pat _) eqn:Hp; try done.
  - intros [= <-]. exists "", (JS.drop (String.length pat) "").
    split_and!; [by apply prefix_true_split | done |]. intros j Hj. lia.
  - intros [= <-]. exists "", (JS.drop (String.length pat) (String c s)).
    split_and!; [by apply prefix_true_split | done |]. intros j Hj. lia.
  - intros (n' & Hi & ->)%fmap_Some.
    destruct (IH n' Hi) as (pre & post & -> & <- & Hnone).
    exists (String c pre), post. split_and!; [done | done |].
    intros [|j] Hj; [done|]. apply Hnone. simpl in Hj. lia.
Qed.

(** [replace] with a replacement that has no dollar sign does what
    [first_replaced] says, on every text. *)
Lemma replace_first_replaced pat rep s :
  dollar_free rep = true → first_replaced pat rep s (JS.replace s pat rep).
Proof.
  intros Hrep. destruct (JS.indexOf pat s) as [n|] eqn:Hi.
  - right. destruct (indexOf_Some_split pat s n Hi) as (pre & post & -> & <- & Hnone).
    exists pre, post. split_and!; [done | done |].
    by apply replace_first_occurrence.
  - left. split; [by apply indexOf_None_nowhere|]. unfold JS.replace. by rewrite Hi.
Qed.

Lemma append_cancel_l p a b : p +:+ a = p +:+ b → a = b.
Proof.
  induction p as [|c p IH]; [done|].
  change (String c (p +:+ a) = String c (p +:+ b) → a = b).
  intros [= H]. by apply IH.
Qed.

Lemma occurs_at_end pat pre post :
  occurs_at pat (pre +:+ pat +:+ post) (String.length pre) = true.
Proof. unfold occurs_at. by rewrite drop_append, prefix_append. Qed.

Lemma first_replaced_functional pat rep s a b :
  first_replaced pat rep s a → first_replaced pat rep s b → a = b.
Proof.
  intros [[Ha ->]|(pre & post & Hs & Hnone & ->)]
         [[Hb ->]|(pre' & post' & Hs' & Hnone' & ->)].
  - done.
  - rewrite Hs' in Ha. specialize (Ha (String.length pre')).
    by rewrite occurs_at_end in Ha.
  - rewrite Hs in Hb. specialize (Hb (String.length pre)).
    by rewrite occurs_at_end in Hb.
  - assert (String.length pre = String.length pre') as Hlen.
    { destruct (Nat.lt_total (String.length pre) (String.length pre'))
        as [Hlt|[Heq|Hlt]]; [|done|].
      - specialize (Hnone' _ Hlt). rewrite Hs in Hnone'.
        by rewrite occurs_at_end in Hnone'.
      - specialize (Hnone _ Hlt). rewrite Hs' in Hnone.
        by rewrite occurs_at_end in Hnone. }
    assert (JS.take (String.length pre) s = pre) as Hpre
      by (rewrite Hs; apply take_append).
    assert (JS.take (String.length pre') s = pre') as Hpre'
      by (rewrite Hs'; apply take_append).
    assert (pre = pre') as <- by congruence.
    rewrite Hs in Hs'. apply append_cancel_l in Hs'. apply append_cancel_l in Hs'.
    by subst.
Qed.

(** C9, as the code has it. For every template, rendering replaces the first
    occurrence of the member placeholder, if there is one, and then the first
    occurrence of the role placeholder, if there is one, in the text so
    obtained; everything else, further occurrences of the same placeholder
    included, is kept as it is, and a template without placeholder is left
    as it is. The rendered text is the only text of which this holds. The
    references are texts without a dollar sign, as mentions are. *)
Theorem renderCrownMessage_first_occurrence_only (template winner role out : string) :
  dollar_free winner = true →
  dollar_free role = true →
  renderCrownMessage template winner role = out
  ↔ ∃ mid, first_replaced "?member" winner template mid
           ∧ first_replaced "?role" role mid out.
Proof.
  intros Hw Hr. unfold renderCrownMessage. split.
  - intros <-. exists (JS.replace template "?member" winner).
    split; by apply replace_first_replaced.
  - intros (mid & Hm & Ho).
    pose proof (replace_first_replaced "?member" winner template Hw) as Hm'.
    rewrite <- (first_replaced_functional _ _ _ _ _ Hm Hm').
    pose proof (replace_first_replaced "?role" role mid Hr) as Ho'.
    apply (first_replaced_functional _ _ _ _ _ Ho' Ho).
Qed.

Lemma renderCrownMessage_first_occurrence_only_witness :
  dollar_free "<@7>" = true
  ∧ dollar_free "<@&900>" = true
  ∧ ∃ mid, first_replaced "?member" "<@7>" "Hail ?member and ?member" mid
           ∧ first_replaced "?role" "<@&900>" mid
               (renderCrownMessage "Hail ?member and ?member" "<@7>" "<@&900>").
Proof.
  split; [reflexivity|]. split; [reflexivity|].
  apply (renderCrownMessage_first_occurrence_only
           "Hail ?member and ?member" "<@7>" "<@&900>"
           (renderCrownMessage "Hail ?member and ?member" "<@7>" "<@&900>"));
    reflexivity.
Defined.

(** C9, as stated, fails: of two member placeholders and two role
    placeholders only the first of each is substituted; the second member
    placeholder is still found in the rendered text. *)
Lemma renderCrownMessage_keeps_second_occurrence :
  renderCrownMessage "?member beat ?member to ?role and ?role" "<@7>" "<@&900>"
  = "<@7> beat ?member to <@&900> and ?role"
  ∧ JS.indexOf "?member"
      (renderCrownMessage "?member beat ?member to ?role and ?role" "<@7>" "<@&900>")
    = Some 10.
Proof. split; reflexivity. Qed.

(** * Further properties of [rotateCrown] *)

(** ** How the promise settles *)

Lemma strip_resume_rejected_iff gw ch role st l :
  strip_rejected (foldl (strip_resume gw ch role) st l) = true
  ↔ strip_rejected st = true
    ∨ Exists (λ e, is_failed_notice e) (strip_notices gw ch role l).
Proof.
  revert st. induction l as [|m l IH]; intros st; simpl.
  - unfold strip_notices, failing. destruct ch; simpl; rewrite Exists_nil; tauto.
  - rewrite IH. unfold strip_resume, strip_notices, failing.
    destruct (removeRole_ok gw (member_id m)) eqn:Hok.
    + rewrite filter_cons_False; [done | congruence].
    + rewrite filter_cons_True by done. destruct ch as [c|]; simpl; [|done].
      rewrite Exists_cons, orb_true_iff. simpl.
      destruct (send_ok gw _); simpl; intuition congruence.
Qed.

Lemma strip_phase_rejected_iff gw ch role guild :
  strip_rejected (strip_phase gw ch role guild) = true
  ↔ Exists (λ e, is_failed_notice e)
      (strip_notices gw ch role (settle gw (holders guild role))).
Proof.
  unfold strip_phase. rewrite strip_resume_rejected_iff. simpl.
  intuition congruence.
Qed.

Lemma strip_issue_no_failed_notice gw role hs :
  ¬ Exists (λ e, is_failed_notice e) (strip_issue gw role hs).
Proof.
  unfold strip_issue. rewrite Exists_fmap, Exists_exists.
  by intros (m & _ & Hm).
Qed.

Lemma strip_events_failed_notice gw ch role guild :
  Exists (λ e, is_failed_notice e) (strip_events (strip_phase gw ch role guild))
  ↔ strip_rejected (strip_phase gw ch role guild) = true.
Proof.
  rewrite strip_phase_events, Exists_app, strip_phase_rejected_iff.
  pose proof (strip_issue_no_failed_notice gw role (holders guild role)). tauto.
Qed.

Lemma announce_kinds gw client guild role ch winner :
  Forall (λ e, is_crown_message e || is_log e)
    (trace (announce gw client guild role ch winner)).
Proof.
  unfold announce.
  destruct (selectCrownMessage client (guild_id guild)) as [t|], winner, ch;
    simpl; repeat case_bool_decide; simpl; repeat case_bool_decide;
    by repeat constructor.
Qed.

Lemma announce_no_failed_notice gw client guild role ch winner :
  ¬ Exists (λ e, is_failed_notice e) (trace (announce gw client guild role ch winner)).
Proof.
  rewrite Exists_exists. intros (e & He & Hf).
  pose proof (announce_kinds gw client guild role ch winner) as Hk.
  rewrite Forall_forall in Hk. specialize (Hk e He).
  destruct e as [| | |? []|]; by simpl in *.
Qed.

Lemma announce_outcome gw client guild role ch winner :
  outcome (announce gw client guild role ch winner)
  = match winner with Some _ => Resolved | None => Rejected TypeError end.
Proof. unfold announce. by destruct winner. Qed.

(** X1. The promise of [rotateCrown] is rejected with the error of a [send]
    exactly when a diagnostic notice (of the strip phase or of the grant
    phase) could not be sent; a crown message that cannot be sent never
    rejects the cycle. *)
Theorem rotateCrown_gateway_error_iff gw client guild crownRole :
  outcome (rotateCrown gw client guild crownRole) = Rejected GatewayError
  ↔ Exists (λ e, is_failed_notice e) (trace (rotateCrown gw client guild crownRole)).
Proof.
  unfold rotateCrown.
  destruct (selectLeaderboard client (guild_id guild)) as [|top lb].
  { simpl. rewrite Exists_nil. split; [done | tauto]. }
  set (ch := defaultChannel_of client guild).
  set (winner := members_get (members guild) (user_id top)).
  pose proof (strip_events_failed_notice gw ch crownRole guild) as Hst.
  destruct (strip_rejected (strip_phase gw ch crownRole guild)) eqn:Hrej.
  { simpl. split; [intros _; by apply Hst | done]. }
  assert (¬ Exists (λ e, is_failed_notice e)
            (strip_events (strip_phase gw ch crownRole guild))) as Hclean.
  { rewrite Hst. done. }
  destruct (quit _). { simpl. split; [done | tauto]. }
  unfold prepend. cbn [trace outcome]. rewrite Exists_app.
  pose proof (announce_no_failed_notice gw client guild crownRole ch winner) as Hann.
  pose proof (announce_outcome gw client guild crownRole ch winner) as Hout.
  unfold grant_phase, grant_catch. subst winner.
  destruct (members_get (members guild) (user_id top)) as [w|];
    [destruct (addRole_ok gw (member_id w))|]; destruct ch as [c|];
    unfold prepend; cbn [trace outcome app];
    rewrite ?Hout, ?Exists_cons, ?Exists_nil; simpl;
    try destruct (send_ok gw (GrantNotice _ _)); simpl;
    split; try done; try tauto; intuition congruence.
Qed.

Lemma strip_resume_all_ok gw ch role st l :
  Forall (λ m, removeRole_ok gw (member_id m) = true) l →
  foldl (strip_resume gw ch role) st l = st.
Proof.
  induction 1 as [|m l Hm _ IH]; simpl; [done|].
  unfold strip_resume at 2. by rewrite Hm.
Qed.

(** When every holder's [removeRole] resolves, the strip phase is the
    [removeRole] calls and nothing else. *)
Lemma strip_phase_clean gw ch role guild :
  settles_all gw →
  (∀ m, m ∈ holders guild role → removeRole_ok gw (member_id m) = true) →
  strip_phase gw ch role guild
  = {| strip_events := strip_issue gw role (holders guild role);
       quit := false; strip_rejected := false |}.
Proof.
  intros Hs Hok. unfold strip_phase. apply strip_resume_all_ok.
  rewrite (Hs _). by apply Forall_forall.
Qed.

Lemma strip_phase_no_channel_quit gw role guild :
  settles_all gw →
  quit (strip_phase gw None role guild) = false
  ↔ ∀ m, m ∈ holders guild role → removeRole_ok gw (member_id m) = true.
Proof.
  intros Hs. pose proof (strip_phase_quit_iff gw None role guild Hs) as Hq.
  split.
  - intros Hf m Hm. destruct (removeRole_ok gw (member_id m)) eqn:Hok; [done|].
    assert (quit (strip_phase gw None role guild) = true) as Ht
      by (apply Hq; eauto).
    congruence.
  - intros Hall. destruct (quit _) eqn:Hqt; [|done].
    destruct Hq as [Hq _]. destruct (Hq eq_refl) as (_ & m & Hm & Hok).
    rewrite (Hall m Hm) in Hok. done.
Qed.

(** X2. The promise of [rotateCrown] is rejected with a [TypeError] in two
    cases only: the leaderboard is empty, or the user of its first row is not
    a member while no default channel is resolved and every [removeRole]
    resolved (the cycle then fails on [winner.displayName], after the strip
    phase). *)
Theorem rotateCrown_type_error_iff gw client guild crownRole :
  settles_all gw →
  outcome (rotateCrown gw client guild crownRole) = Rejected TypeError
  ↔ selectLeaderboard client (guild_id guild) = []
    ∨ ∃ top lb,
        selectLeaderboard client (guild_id guild) = top :: lb
        ∧ members_get (members guild) (user_id top) = None
        ∧ defaultChannel_of client guild = None
        ∧ ∀ m, m ∈ holders guild crownRole → removeRole_ok gw (member_id m) = true.
Proof.
  intros Hs. unfold rotateCrown.
  destruct (selectLeaderboard client (guild_id guild)) as [|top lb].
  { simpl. split; [by left | done]. }
  destruct (defaultChannel_of client guild) as [c|] eqn:Hch.
  - split; [|by intros [?|(? & ? & ? & ? & ? & ?)]].
    destruct (strip_rejected _); [done|]. destruct (quit _); [done|].
    unfold prepend, grant_phase, grant_catch. cbn [outcome].
    destruct (members_get _ _) as [w|];
      [destruct (addRole_ok gw (member_id w))|]; cbn [outcome];
      rewrite ?announce_outcome; try done;
      by destruct (send_ok gw _).
  - destruct (strip_phase_no_channel gw crownRole guild) as [_ ->].
    pose proof (strip_phase_no_channel_quit gw crownRole guild Hs) as Hq.
    destruct (quit (strip_phase gw None crownRole guild)).
    { split; [done|]. intros [?|(? & ? & ? & ? & ? & Hall)]; [done|].
      apply Hq in Hall. done. }
    unfold prepend, grant_phase, grant_catch. cbn [outcome].
    destruct (members_get (members guild) (user_id top)) as [w|] eqn:Hw.
    + split; [|intros [?|(t & l & [= <- <-] & ? & ?)]; congruence].
      destruct (addRole_ok gw (member_id w)); unfold prepend; cbn [outcome];
        by rewrite announce_outcome.
    + split; [|by rewrite announce_outcome].
      intros _. right. exists top, lb. rewrite Hw. split_and!; try done.
      by apply Hq.
Qed.

Lemma rotateCrown_type_error_iff_witness :
  settles_all (Scenario.gateway [])
  ∧ outcome (rotateCrown (Scenario.gateway [])
               (Scenario.client None None (Scenario.top "999"))
               Scenario.guild Scenario.crown) = Rejected TypeError.
Proof.
  split; [apply Scenario_gateway_settles|].
  apply (rotateCrown_type_error_iff (Scenario.gateway [])
           (Scenario.client None None (Scenario.top "999"))
           Scenario.guild Scenario.crown (Scenario_gateway_settles [])).
  right. exists {| user_id := "999"; points := 50 |}, [].
  split; [reflexivity|]. split; [reflexivity|]. split; [reflexivity|].
  intros m Hm. reflexivity.
Defined.

(** ** The end of the cycle *)

Lemma rotateCrown_after_clean_strip gw client guild role top lb :
  settles_all gw →
  selectLeaderboard client (guild_id guild) = top :: lb →
  (∀ m, m ∈ holders guild role → removeRole_ok gw (member_id m) = true) →
  rotateCrown gw client guild role
  = prepend (strip_issue gw role (holders guild role))
      (grant_phase gw client guild role (defaultChannel_of client guild)
         (members_get (members guild) (user_id top))).
Proof.
  intros Hs Hlb Hok. unfold rotateCrown. rewrite Hlb.
  by rewrite strip_phase_clean.
Qed.

Lemma announce_trace gw client guild role ch w :
  ∃ sent, trace (announce gw client guild role ch (Some w))
          = sent ++ [EvLogInfo (success_line guild w)]
        ∧ Forall (λ e, is_crown_message e) sent ∧ (length sent ≤ 1)%nat.
Proof.
  unfold announce. eexists. split; [done|].
  destruct ch, (selectCrownMessage client (guild_id guild)) as [t|];
    simpl; repeat case_bool_decide; simpl; repeat case_bool_decide;
    split; repeat constructor.
Qed.

(** X3. When the first row of the leaderboard names a member, every
    [removeRole] resolves and the [addRole] resolves, the cycle is: one
    [removeRole] per holder, the [addRole], the [clearPoints] of the guild,
    at most one crown message, and the success line in the log; the promise
    resolves. *)
Theorem rotateCrown_success gw client guild crownRole top lb w :
  settles_all gw →
  selectLeaderboard client (guild_id guild) = top :: lb →
  members_get (members guild) (user_id top) = Some w →
  (∀ m, m ∈ holders guild crownRole → removeRole_ok gw (member_id m) = true) →
  addRole_ok gw (member_id w) = true →
  outcome (rotateCrown gw client guild crownRole) = Resolved
  ∧ ∃ sent,
      trace (rotateCrown gw client guild crownRole)
      = strip_issue gw crownRole (holders guild crownRole)
        ++ [EvAddRole (member_id w) (role_id crownRole) true;
            EvClearPoints (guild_id guild)]
        ++ sent ++ [EvLogInfo (success_line guild w)]
      ∧ Forall (λ e, is_crown_message e) sent ∧ (length sent ≤ 1)%nat.
Proof.
  intros Hs Hlb Hw Hok Hadd.
  rewrite (rotateCrown_after_clean_strip gw client guild crownRole top lb) by done.
  rewrite Hw. unfold grant_phase. rewrite Hadd. unfold prepend. cbn [trace outcome].
  split; [by rewrite announce_outcome|].
  destruct (announce_trace gw client guild crownRole
              (defaultChannel_of client guild) w) as (sent & -> & Hsent & Hlen).
  by exists sent.
Qed.

Lemma rotateCrown_success_witness :
  settles_all (Scenario.gateway [])
  ∧ addRole_ok (Scenario.gateway []) "7" = true
  ∧ outcome (rotateCrown (Scenario.gateway [])
               (Scenario.client (Some "500") (Some "Hail ?member, our ?role")
                  (Scenario.top "7"))
               Scenario.guild Scenario.crown) = Resolved.
Proof.
  split; [apply Scenario_gateway_settles|]. split; [reflexivity|].
  apply (rotateCrown_success (Scenario.gateway [])
           (Scenario.client (Some "500") (Some "Hail ?member, our ?role")
              (Scenario.top "7"))
           Scenario.guild Scenario.crown {| user_id := "7"; points := 50 |} []
           (Scenario.member "7" "U1" false)).
  - apply Scenario_gateway_settles.
  - reflexivity.
  - reflexivity.
  - intros m Hm. reflexivity.
  - reflexivity.
Defined.

(** X4. Without a default channel, a rejected [addRole] is not reported and
    does not end the cycle: after the [removeRole] calls and the failed
    [addRole], the points are not cleared, yet the success line is logged and
    the promise resolves. *)
Theorem grant_failure_without_channel_logs_success gw client guild crownRole top lb w :
  settles_all gw →
  selectLeaderboard client (guild_id guild) = top :: lb →
  members_get (members guild) (user_id top) = Some w →
  (∀ m, m ∈ holders guild crownRole → removeRole_ok gw (member_id m) = true) →
  defaultChannel_of client guild = None →
  addRole_ok gw (member_id w) = false →
  rotateCrown gw client guild crownRole
  = {| trace := strip_issue gw crownRole (holders guild crownRole)
                ++ [EvAddRole (member_id w) (role_id crownRole) false;
                    EvLogInfo (success_line guild w)];
       outcome := Resolved |}.
Proof.
  intros Hs Hlb Hw Hok Hch Hadd.
  rewrite (rotateCrown_after_clean_strip gw client guild crownRole top lb) by done.
  rewrite Hw, Hch. unfold grant_phase, grant_catch. rewrite Hadd.
  unfold prepend, announce. cbn [trace outcome]. done.
Qed.

Lemma grant_failure_without_channel_logs_success_witness :
  settles_all
    {| removeRole_ok := λ _, true; addRole_ok := λ _, false;
       send_ok := λ _, true; settle := reverse |}
  ∧ rotateCrown
      {| removeRole_ok := λ _, true; addRole_ok := λ _, false;
         send_ok := λ _, true; settle := reverse |}
      (Scenario.client None (Some "Hail ?member") (Scenario.top "7"))
      Scenario.guild Scenario.crown
    = {| trace :=
           [EvRemoveRole "1" "900" true; EvRemoveRole "2" "900" true;
            EvRemoveRole "3" "900" true; EvAddRole "7" "900" false;
            EvLogInfo "Calypso: Successfully transferred crown role to U1 and cleared points"];
         outcome := Resolved |}.
Proof.
  split; [intros l; apply reverse_Permutation|].
  apply (grant_failure_without_channel_logs_success
           {| removeRole_ok := λ _, true; addRole_ok := λ _, false;
              send_ok := λ _, true; settle := reverse |}
           (Scenario.client None (Some "Hail ?member") (Scenario.top "7"))
           Scenario.guild Scenario.crown {| user_id := "7"; points := 50 |} []
           (Scenario.member "7" "U1" false)).
  - intros l. apply reverse_Permutation.
  - reflexivity.
  - reflexivity.
  - intros m Hm. reflexivity.
  - reflexivity.
  - reflexivity.
Defined.

(** X5. With a default channel, a rejected [addRole] ends the cycle: the
    points are not cleared, no crown message is posted and no line is
    logged; when the strip notices (if any) were all sent, the cycle ends
    with the failed [addRole] and one grant notice, and the promise settles
    as the [send] of that notice does. *)
Theorem grant_failure_with_channel_ends_cycle gw client guild crownRole top lb w ch :
  selectLeaderboard client (guild_id guild) = top :: lb →
  members_get (members guild) (user_id top) = Some w →
  defaultChannel_of client guild = Some ch →
  addRole_ok gw (member_id w) = false →
  let r := rotateCrown gw client guild crownRole in
  let st := strip_phase gw (Some ch) crownRole guild in
  let notice := GrantNotice (role_mention crownRole) (member_mention w) in
  Forall (λ e, ¬ is_clear e ∧ ¬ is_crown_message e ∧ ¬ is_log e) (trace r)
  ∧ (strip_rejected st = false →
     r = {| trace := strip_events st
                     ++ [EvAddRole (member_id w) (role_id crownRole) false;
                         EvSend (channel_id ch) notice (send_ok gw notice)];
            outcome := if send_ok gw notice then Resolved
                       else Rejected GatewayError |}).
Proof.
  intros Hlb Hw Hch Hadd r st notice. subst r st notice.
  assert (Forall (λ e : Event, ¬ is_clear e ∧ ¬ is_crown_message e ∧ ¬ is_log e)
            (strip_events (strip_phase gw (Some ch) crownRole guild))) as Hst.
  { eapply Forall_impl; [apply strip_events_strip|].
    intros e He. destruct e as [| | |? []|]; simpl in *; tauto. }
  unfold rotateCrown. rewrite Hlb, Hw, Hch.
  rewrite (strip_phase_quit gw (Some ch)). simpl.
  unfold grant_phase, grant_catch. rewrite Hadd.
  destruct (strip_rejected _); cbn [prepend trace outcome].
  - split; [done | done].
  - split; [|done]. apply Forall_app. split; [done|].
    repeat constructor; simpl; tauto.
Qed.

Lemma grant_failure_with_channel_ends_cycle_witness :
  rotateCrown
    {| removeRole_ok := λ _, true; addRole_ok := λ _, false;
       send_ok := λ _, true; settle := reverse |}
    (Scenario.client (Some "500") (Some "Hail ?member") (Scenario.top "7"))
    Scenario.guild Scenario.crown
  = {| trace :=
         [EvRemoveRole "1" "900" true; EvRemoveRole "2" "900" true;
          EvRemoveRole "3" "900" true; EvAddRole "7" "900" false;
          EvSend "500" (GrantNotice "<@&900>" "<@7>") true];
       outcome := Resolved |}.
Proof.
  apply (grant_failure_with_channel_ends_cycle
           {| removeRole_ok := λ _, true; addRole_ok := λ _, false;
              send_ok := λ _, true; settle := reverse |}
           (Scenario.client (Some "500") (Some "Hail ?member") (Scenario.top "7"))
           Scenario.guild Scenario.crown {| user_id := "7"; points := 50 |} []
           (Scenario.member "7" "U1" false) {| channel_id := "500" |});
    reflexivity.
Defined.

Lemma announce_crown_message gw client guild role ch winner c text ok :
  EvSend c (CrownMessage text) ok ∈ trace (announce gw client guild role ch winner) →
  ∃ ch' template,
    ch = Some ch' ∧ c = channel_id ch'
    ∧ selectCrownMessage client (guild_id guild) = Some template
    ∧ text = renderCrownMessage template (winner_text winner) (role_mention role).
Proof.
  unfold announce. intros Hin. apply list_elem_of_In in Hin.
  destruct ch as [c'|], (selectCrownMessage client (guild_id guild)) as [t|], winner;
    simpl in Hin; repeat case_bool_decide; simpl in Hin;
    repeat case_bool_decide; simpl in Hin;
    repeat (destruct Hin as [Hin|Hin]); try done; simplify_eq;
    by eexists _, _.
Qed.

(** X6. A crown message is posted only in a cycle whose [addRole] resolved
    and whose points were cleared; it goes to the default channel and its
    text is the stored template rendered for the winner and the role. *)
Theorem crown_message_only_after_grant gw client guild crownRole c text ok :
  EvSend c (CrownMessage text) ok ∈ trace (rotateCrown gw client guild crownRole) →
  ∃ top lb w ch template,
    selectLeaderboard client (guild_id guild) = top :: lb
    ∧ members_get (members guild) (user_id top) = Some w
    ∧ EvAddRole (member_id w) (role_id crownRole) true
        ∈ trace (rotateCrown gw client guild crownRole)
    ∧ EvClearPoints (guild_id guild) ∈ trace (rotateCrown gw client guild crownRole)
    ∧ defaultChannel_of client guild = Some ch ∧ c = channel_id ch
    ∧ selectCrownMessage client (guild_id guild) = Some template
    ∧ text = renderCrownMessage template (member_mention w) (role_mention crownRole).
Proof.
  unfold rotateCrown.
  destruct (selectLeaderboard client (guild_id guild)) as [|top lb];
    [by intros ?%elem_of_nil|].
  set (ch := defaultChannel_of client guild).
  pose proof (strip_events_strip gw ch crownRole guild) as Hst.
  rewrite Forall_forall in Hst.
  assert (EvSend c (CrownMessage text) ok
            ∉ strip_events (strip_phase gw ch crownRole guild)) as Hno.
  { intros Hin. by apply Hst in Hin. }
  destruct (strip_rejected _); [done|]. destruct (quit _); [done|].
  unfold prepend. cbn [trace]. intros Hin.
  apply elem_of_app in Hin as [?|Hin]; [done|].
  unfold grant_phase, grant_catch in Hin.
  destruct (members_get (members guild) (user_id top)) as [w|] eqn:Hw.
  - destruct (addRole_ok gw (member_id w)) eqn:Hadd; unfold prepend in Hin;
      cbn [trace app] in Hin.
    + do 2 (apply elem_of_cons in Hin as [?|Hin]; [done|]).
      apply announce_crown_message in Hin as (c' & t & Hch & -> & Ht & ->).
      exists top, lb, w, c', t. split_and!; try done.
      * apply elem_of_app. right. unfold grant_phase. rewrite Hadd. left.
      * apply elem_of_app. right. unfold grant_phase. rewrite Hadd. right. left.
    + apply elem_of_cons in Hin as [?|Hin]; [done|].
      destruct ch as [c'|].
      * cbn [trace] in Hin. by apply list_elem_of_singleton in Hin.
      * by apply announce_crown_message in Hin as (? & ? & ? & _).
  - destruct ch as [c'|].
    + cbn [trace] in Hin. by apply list_elem_of_singleton in Hin.
    + by apply announce_crown_message in Hin as (? & ? & ? & _).
Qed.

Lemma crown_message_only_after_grant_witness :
  ∃ top lb w ch template,
    selectLeaderboard
      (Scenario.client (Some "500") (Some "Hail ?member, our ?role") (Scenario.top "7"))
      (guild_id Scenario.guild) = top :: lb
    ∧ members_get (members Scenario.guild) (user_id top) = Some w
    ∧ EvAddRole (member_id w) (role_id Scenario.crown) true
        ∈ trace (rotateCrown (Scenario.gateway [])
                   (Scenario.client (Some "500") (Some "Hail ?member, our ?role")
                      (Scenario.top "7"))
                   Scenario.guild Scenario.crown)
    ∧ EvClearPoints (guild_id Scenario.guild)
        ∈ trace (rotateCrown (Scenario.gateway [])
                   (Scenario.client (Some "500") (Some "Hail ?member, our ?role")
                      (Scenario.top "7"))
                   Scenario.guild Scenario.crown)
    ∧ defaultChannel_of
        (Scenario.client (Some "500") (Some "Hail ?member, our ?role") (Scenario.top "7"))
        Scenario.guild = Some ch
    ∧ "500" = channel_id ch
    ∧ selectCrownMessage
        (Scenario.client (Some "500") (Some "Hail ?member, our ?role") (Scenario.top "7"))
        (guild_id Scenario.guild) = Some template
    ∧ "Hail <@7>, our <@&900>"
      = renderCrownMessage template (member_mention w) (role_mention Scenario.crown).
Proof.
  apply (crown_message_only_after_grant (Scenario.gateway [])
           (Scenario.client (Some "500") (Some "Hail ?member, our ?role")
              (Scenario.top "7"))
           Scenario.guild Scenario.crown "500" "Hail <@7>, our <@&900>" true).
  vm_compute. do 5 right. left.
Defined.

(** ** The order in which the promises settle *)

Lemma strip_notices_perm gw ch role l l' :
  l ≡ₚ l' → strip_notices gw ch role l ≡ₚ strip_notices gw ch role l'.
Proof.
  intros Hp. unfold strip_notices, failing. destruct ch; [|done]. by rewrite Hp.
Qed.

Lemma filter_other_strip_issue gw role hs :
  filter (λ e, ¬ is_strip_notice e) (strip_issue gw role hs) = strip_issue gw role hs.
Proof.
  unfold strip_issue. induction hs as [|m hs IH]; [done|].
  rewrite fmap_cons, filter_cons_True by (intros H; exact H). by rewrite IH.
Qed.

Lemma filter_other_strip_notices gw ch role l :
  filter (λ e, ¬ is_strip_notice e) (strip_notices gw ch role l) = [].
Proof.
  unfold strip_notices. destruct ch as [c|]; [|done].
  induction (failing gw l) as [|m k IH]; [done|].
  rewrite fmap_cons, filter_cons_False; [done|]. intros H. by apply H.
Qed.

Lemma bool_eq_iff (a b : bool) : (a = true ↔ b = true) → a = b.
Proof. destruct a, b; intuition congruence. Qed.

Lemma strip_phase_with_settle gw order ch role guild :
  settles_all gw → (∀ l, order l ≡ₚ l) →
  let st := strip_phase gw ch role guild in
  let st' := strip_phase (with_settle gw order) ch role guild in
  strip_rejected st' = strip_rejected st
  ∧ quit st' = quit st
  ∧ strip_events st' ≡ₚ strip_events st
  ∧ filter (λ e, ¬ is_strip_notice e) (strip_events st')
    = filter (λ e, ¬ is_strip_notice e) (strip_events st).
Proof.
  intros Hs Ho st st'. subst st st'.
  assert (order (holders guild role) ≡ₚ settle gw (holders guild role)) as Hp
    by (etrans; [apply Ho | symmetry; apply Hs]).
  split_and!.
  - apply bool_eq_iff. rewrite !strip_phase_rejected_iff.
    change (strip_notices (with_settle gw order) ch role
              (settle (with_settle gw order) (holders guild role)))
      with (strip_notices gw ch role (order (holders guild role))).
    by rewrite (strip_notices_perm gw ch role _ _ Hp).
  - rewrite !strip_phase_quit. f_equal. apply bool_decide_ext.
    change (failing (with_settle gw order)
              (settle (with_settle gw order) (holders guild role)))
      with (failing gw (order (holders guild role))).
    apply (failing_nil_perm gw _ _ Hp).
  - rewrite !strip_phase_events.
    change (strip_issue (with_settle gw order) role (holders guild role)
            ++ strip_notices (with_settle gw order) ch role
                 (settle (with_settle gw order) (holders guild role)))
      with (strip_issue gw role (holders guild role)
            ++ strip_notices gw ch role (order (holders guild role))).
    by rewrite (strip_notices_perm gw ch role _ _ Hp).
  - rewrite !strip_phase_events, !filter_app.
    rewrite !filter_other_strip_notices.
    change (strip_issue (with_settle gw order) role (holders guild role))
      with (strip_issue gw role (holders guild role)). done.
Qed.

(** X7. The order in which the [removeRole] promises settle changes nothing
    but the order of the strip notices: the promise of [rotateCrown] settles
    the same way, the same calls are issued, and all calls other than the
    strip notices are issued in the same order. *)
Theorem rotateCrown_settle_order gw order client guild crownRole :
  settles_all gw →
  (∀ l, order l ≡ₚ l) →
  let r := rotateCrown gw client guild crownRole in
  let r' := rotateCrown (with_settle gw order) client guild crownRole in
  outcome r' = outcome r
  ∧ trace r' ≡ₚ trace r
  ∧ filter (λ e, ¬ is_strip_notice e) (trace r')
    = filter (λ e, ¬ is_strip_notice e) (trace r).
Proof.
  intros Hs Ho r r'. subst r r'. unfold rotateCrown.
  destruct (selectLeaderboard client (guild_id guild)) as [|top lb]; [done|].
  destruct (strip_phase_with_settle gw order (defaultChannel_of client guild)
              crownRole guild Hs Ho) as (-> & -> & Hperm & Hfilter).
  change (grant_phase (with_settle gw order)) with (grant_phase gw).
  destruct (strip_rejected _); [done|]. destruct (quit _); [done|].
  unfold prepend. cbn [trace outcome]. split_and!; [done | by rewrite Hperm |].
  by rewrite !filter_app, Hfilter.
Qed.

Lemma rotateCrown_settle_order_witness :
  settles_all (Scenario.gateway ["2"; "3"])
  ∧ trace (rotateCrown (with_settle (Scenario.gateway ["2"; "3"]) (λ l, l))
             (Scenario.client (Some "500") None (Scenario.top "7"))
             Scenario.guild Scenario.crown)
    ≡ₚ trace (rotateCrown (Scenario.gateway ["2"; "3"])
                (Scenario.client (Some "500") None (Scenario.top "7"))
                Scenario.guild Scenario.crown).
Proof.
  split; [apply Scenario_gateway_settles|].
  apply (rotateCrown_settle_order (Scenario.gateway ["2"; "3"]) (λ l, l)
           (Scenario.client (Some "500") None (Scenario.top "7"))
           Scenario.guild Scenario.crown);
    [apply Scenario_gateway_settles | reflexivity].
Defined.

(** * Further properties of [scheduleCrown] *)

Local Ltac nothing_added :=
  split; [exists []; rewrite app_nil_r;
          split_and!; [done | simpl; lia | constructor] | done].

(** X8. Whatever the settings, [scheduleCrown] disarms nothing: the jobs
    armed before the call are still armed after it, in the same order; at
    most one job is added, and it is a job of this guild; and the line
    "Successfully scheduled job" is logged even when no job was installed. *)
Theorem scheduleCrown_never_disarms parses client t guild :
  let r := scheduleCrown parses client t guild in
  (∃ added,
     Schedule.scheduledJobs r.1.1 = Schedule.scheduledJobs t ++ added
     ∧ (length added ≤ 1)%nat
     ∧ Forall (λ j, Schedule.job_guild j = guild_id guild) added)
  ∧ r.2 = [EvLogInfo (guild_name guild +:+ ": Successfully scheduled job")].
Proof.
  intros r. subst r. unfold scheduleCrown, Schedule.scheduleJob.
  destruct (crownRole_of client guild) as [role|],
    (selectCrownSchedule client (guild_id guild)) as [rule|];
    cbn [fst snd]; try nothing_added.
  destruct (JS.truthy_int _ && JS.truthy_string _); cbn [fst snd];
    [|nothing_added].
  destruct (parses rule); cbn [fst snd Schedule.scheduledJobs].
  - split; [|done]. eexists [_].
    split_and!; [done | simpl; lia | by repeat constructor].
  - nothing_added.
Qed.

(** X9. When the settings qualify but the package does not accept the
    schedule expression, no job is armed and [guild.job] is overwritten with
    [null]: a handle kept there is lost although its job stays armed. *)
Theorem scheduleCrown_rejected_rule_drops_handle parses client t guild role rule :
  JS.truthy_int (selectUsePoints client (guild_id guild)) = true →
  crownRole_of client guild = Some role →
  selectCrownSchedule client (guild_id guild) = Some rule →
  rule ≠ "" →
  parses rule = false →
  let r := scheduleCrown parses client t guild in
  Schedule.scheduledJobs r.1.1 = Schedule.scheduledJobs t
  ∧ job r.1.2 = None.
Proof.
  intros Hen Hrole Hrule Hne Hp r. subst r.
  rewrite (scheduleCrown_eligible parses client t guild role rule) by done.
  unfold Schedule.scheduleJob. by rewrite Hp.
Qed.

Lemma scheduleCrown_rejected_rule_drops_handle_witness :
  job Scenario.once.1.2 = Some 1
  ∧ Schedule.armed_for "42" Scenario.once.1.1 ≠ []
  ∧ Schedule.scheduledJobs
      (scheduleCrown (λ _, false) (Scenario.client (Some "500") None (Scenario.top "7"))
         Scenario.once.1.1 Scenario.once.1.2).1.1
    = Schedule.scheduledJobs Scenario.once.1.1
  ∧ job (scheduleCrown (λ _, false)
           (Scenario.client (Some "500") None (Scenario.top "7"))
           Scenario.once.1.1 Scenario.once.1.2).1.2 = None.
Proof.
  split; [reflexivity|]. split; [discriminate|].
  apply (scheduleCrown_rejected_rule_drops_handle (λ _, false)
           (Scenario.client (Some "500") None (Scenario.top "7"))
           Scenario.once.1.1 Scenario.once.1.2 Scenario.crown "0 0 * * 5");
    [reflexivity | reflexivity | reflexivity | discriminate | reflexivity].
Defined.

Lemma scheduleCrown_times_armed parses client role rule n :
  parses rule = true → rule ≠ "" →
  ∀ t guild,
    JS.truthy_int (selectUsePoints client (guild_id guild)) = true →
    crownRole_of client guild = Some role →
    selectCrownSchedule client (guild_id guild) = Some rule →
    let r := scheduleCrown_times parses n client t guild in
    length (Schedule.armed_for (guild_id guild) r.1)
    = length (Schedule.armed_for (guild_id guild) t) + n
    ∧ length (Schedule.scheduledJobs r.1) = length (Schedule.scheduledJobs t) + n.
Proof.
  intros Hp Hne. induction n as [|n IH]; intros t guild Hen Hrole Hrule.
  { simpl. lia. }
  cbn [scheduleCrown_times].
  rewrite (scheduleCrown_eligible parses client t guild role rule) by done.
  unfold Schedule.scheduleJob. rewrite Hp. cbn [fst snd].
  specialize (IH {| Schedule.scheduledJobs := Schedule.scheduledJobs t ++
                      [{| Schedule.job_name := S (Schedule.anonJobCounter t);
                          Schedule.job_rule := rule;
                          Schedule.job_guild := guild_id guild;
                          Schedule.job_role := role |}];
                    Schedule.anonJobCounter := S (Schedule.anonJobCounter t) |}
                 (set_job guild (Some (S (Schedule.anonJobCounter t))))
                 Hen Hrole Hrule).
  cbn [guild_id set_job] in IH. destruct IH as [-> ->].
  unfold Schedule.armed_for. cbn [Schedule.scheduledJobs].
  rewrite filter_app, filter_cons_True by done.
  rewrite !length_app. simpl. lia.
Qed.

(** X10. Timers pile up: when the settings qualify and the schedule
    expression is accepted, [n] calls of [scheduleCrown] for a guild leave
    [n] more jobs armed for it than before. *)
Theorem scheduleCrown_times_piles_up parses client t guild role rule n :
  JS.truthy_int (selectUsePoints client (guild_id guild)) = true →
  crownRole_of client guild = Some role →
  selectCrownSchedule client (guild_id guild) = Some rule →
  rule ≠ "" →
  parses rule = true →
  length (Schedule.armed_for (guild_id guild)
            (scheduleCrown_times parses n client t guild).1)
  = length (Schedule.armed_for (guild_id guild) t) + n.
Proof.
  intros Hen Hrole Hrule Hne Hp.
  by apply (scheduleCrown_times_armed parses client role rule n Hp Hne t guild).
Qed.

Lemma scheduleCrown_times_piles_up_witness :
  crownRole_of (Scenario.client (Some "500") None (Scenario.top "7")) Scenario.guild
  = Some Scenario.crown
  ∧ length (Schedule.armed_for (guild_id Scenario.guild)
              (scheduleCrown_times (λ _, true) 5
                 (Scenario.client (Some "500") None (Scenario.top "7"))
                 Scenario.timers Scenario.guild).1)
    = length (Schedule.armed_for (guild_id Scenario.guild) Scenario.timers) + 5.
Proof.
  split; [reflexivity|].
  apply (scheduleCrown_times_piles_up (λ _, true)
           (Scenario.client (Some "500") None (Scenario.top "7"))
           Scenario.timers Scenario.guild Scenario.crown "0 0 * * 5" 5);
    [reflexivity | reflexivity | reflexivity | discriminate | reflexivity].
Defined.

(** * Properties of the class [Command] *)

(** ** Mentions *)

Lemma digits_close_unfold c rest :
  Mention.digits_close (String c rest)
  = if Mention.is_digit c then
      if bool_decide (rest = ">") then Some (String c "")
      else String c <$> Mention.digits_close rest
    else None.
Proof. done. Qed.

Lemma all_digits_cons c rest :
  rest ≠ "" →
  Mention.all_digits (String c rest) = Mention.is_digit c && Mention.all_digits rest.
Proof. by destruct rest. Qed.

Lemma append_close_inv (a b : string) : a +:+ ">" = b +:+ ">" → a = b.
Proof.
  revert b. induction a as [|c a IH]; intros [|d b] Heq; simpl in Heq.
  - done.
  - injection Heq as -> Heq. by destruct b.
  - injection Heq as -> Heq. by destruct a.
  - injection Heq as -> Heq. by rewrite (IH b).
Qed.

Lemma digits_close_append id :
  Mention.all_digits id = true → Mention.digits_close (id +:+ ">") = Some id.
Proof.
  induction id as [|c id IH]; [done|]. intros Hd.
  change (String c id +:+ ">") with (String c (id +:+ ">")).
  rewrite digits_close_unfold. destruct id as [|e id].
  - simpl in Hd. rewrite Hd. simpl. done.
  - rewrite all_digits_cons in Hd by done. apply andb_true_iff in Hd as [Hc Hd].
    rewrite Hc, IH by done. rewrite bool_decide_false; [done|].
    simpl. intros [= -> Hnil]. by destruct id.
Qed.

Lemma digits_close_inv s id :
  Mention.digits_close s = Some id → Mention.all_digits id = true ∧ s = id +:+ ">".
Proof.
  revert id. induction s as [|c rest IH]; intros id; [done|].
  rewrite digits_close_unfold. destruct (Mention.is_digit c) eqn:Hc; [|done].
  case_bool_decide as Hrest.
  - subst rest. intros [= <-]. by rewrite <- Hc.
  - intros (id' & Hrun & ->)%fmap_Some. apply IH in Hrun as [Hd ->].
    split; [|done]. rewrite all_digits_cons; [by rewrite Hc, Hd | by destruct id'].
Qed.

Lemma digits_close_spec s id :
  Mention.digits_close s = Some id
  ↔ Mention.all_digits id = true ∧ s = id +:+ ">".
Proof.
  split; [apply digits_close_inv|]. intros [Hd ->]. by apply digits_close_append.
Qed.

Lemma strip_prefix_spec p s rest :
  Mention.strip_prefix p s = Some rest ↔ s = p +:+ rest.
Proof.
  revert s. induction p as [|a p IH]; intros s.
  - change ("" +:+ rest) with rest. destruct s; simpl; split; congruence.
  - change (String a p +:+ rest) with (String a (p +:+ rest)).
    destruct s as [|b s]; simpl; [split; congruence|].
    case_bool_decide as Hab.
    + subst b. rewrite IH. split; congruence.
    + split; congruence.
Qed.

Lemma from_mention_spec {A} pattern (get : string → option A) mention x :
  pattern "" = None →
  Mention.from_mention pattern get mention = Some x
  ↔ ∃ m id, mention = Some m ∧ pattern m = Some id ∧ get id = Some x.
Proof.
  intros Hempty. unfold Mention.from_mention.
  destruct mention as [m|]; simpl; [|split; [done | by intros (? & ? & ? & _)]].
  case_bool_decide as Hm.
  - destruct (pattern m) as [id|] eqn:Hp.
    + split; [by eauto|]. by intros (? & ? & [= <-] & [= <-]%(eq_trans (eq_sym Hp)) & ?).
    + split; [done|]. intros (? & ? & [= <-] & Hp' & _). congruence.
  - subst m. split; [done|].
    intros (? & ? & [= <-] & Hp' & _). congruence.
Qed.

Lemma role_id_of_spec m id :
  Mention.role_id_of m = Some id
  ↔ Mention.all_digits id = true ∧ m = "<@&" +:+ id +:+ ">".
Proof.
  unfold Mention.role_id_of. rewrite bind_Some.
  setoid_rewrite strip_prefix_spec. setoid_rewrite digits_close_spec. split.
  - by intros (rest & -> & Hd & ->).
  - intros [Hd ->]. by exists (id +:+ ">").
Qed.

Lemma channel_id_of_spec m id :
  Mention.channel_id_of m = Some id
  ↔ Mention.all_digits id = true ∧ m = "<#" +:+ id +:+ ">".
Proof.
  unfold Mention.channel_id_of. rewrite bind_Some.
  setoid_rewrite strip_prefix_spec. setoid_rewrite digits_close_spec. split.
  - by intros (rest & -> & Hd & ->).
  - intros [Hd ->]. by exists (id +:+ ">").
Qed.

Lemma all_digits_head c id :
  Mention.all_digits (String c id) = true → Mention.is_digit c = true.
Proof. destruct id; simpl; [done|]. by intros [? _]%andb_true_iff. Qed.

Lemma append_inv_l p a b : p +:+ a = p +:+ b → a = b.
Proof.
  induction p as [|c p IH]; [done|].
  change (String c (p +:+ a) = String c (p +:+ b) → a = b).
  intros [= H]. by apply IH.
Qed.

Lemma strip_prefix_append p rest : Mention.strip_prefix p (p +:+ rest) = Some rest.
Proof. by apply strip_prefix_spec. Qed.

Lemma bang_not_digits id rest : Mention.all_digits id = true → "!" +:+ rest ≠ id +:+ ">".
Proof.
  intros Hd Heq. destruct id as [|c id]; [done|].
  apply all_digits_head in Hd.
  change (String "!" rest = String c (id +:+ ">")) in Heq.
  injection Heq as <- _. done.
Qed.

Lemma member_id_of_spec m id :
  Mention.member_id_of m = Some id
  ↔ Mention.all_digits id = true
    ∧ (m = "<@" +:+ id +:+ ">" ∨ m = "<@!" +:+ id +:+ ">").
Proof.
  unfold Mention.member_id_of.
  destruct (Mention.strip_prefix "<@" m) as [rest|] eqn:Hp.
  - apply strip_prefix_spec in Hp as ->.
    destruct (Mention.strip_prefix "!" rest) as [rest'|] eqn:Hb.
    + apply strip_prefix_spec in Hb as ->. rewrite digits_close_spec. split.
      * intros [Hd ->]. split; [done|]. by right.
      * intros [Hd [Heq|Heq]].
        -- apply (append_inv_l "<@") in Heq. by apply bang_not_digits in Heq.
        -- by apply (append_inv_l "<@!" rest' (id +:+ ">")) in Heq.
    + rewrite digits_close_spec. split.
      * intros [Hd ->]. split; [done|]. by left.
      * intros [Hd [Heq|Heq]].
        -- by apply (append_inv_l "<@") in Heq.
        -- apply (append_inv_l "<@" rest ("!" +:+ id +:+ ">")) in Heq. subst rest.
           by rewrite strip_prefix_append in Hb.
  - split; [done|]. intros [Hd [-> | ->]].
    + by rewrite (strip_prefix_append "<@") in Hp.
    + assert (Mention.strip_prefix "<@" ("<@!" +:+ id +:+ ">")
              = Some ("!" +:+ id +:+ ">")) as Hc
        by apply (strip_prefix_append "<@").
      congruence.
Qed.

Lemma role_mention_form guild mention role :
  Mention.getRoleFromMention guild mention = Some role →
  ∃ id, Mention.all_digits id = true ∧ mention = Some ("<@&" +:+ id +:+ ">").
Proof.
  unfold Mention.getRoleFromMention. rewrite from_mention_spec by done.
  intros (m & id & -> & [Hd ->]%role_id_of_spec & _). eauto.
Qed.

Lemma member_mention_form guild mention member :
  Mention.getMemberFromMention guild mention = Some member →
  ∃ id, Mention.all_digits id = true
        ∧ (mention = Some ("<@" +:+ id +:+ ">")
           ∨ mention = Some ("<@!" +:+ id +:+ ">")).
Proof.
  unfold Mention.getMemberFromMention. rewrite from_mention_spec by done.
  intros (m & id & -> & [Hd [-> | ->]]%member_id_of_spec & _); eauto.
Qed.

(** X11. [getRoleFromMention] reads exactly the texts [<@&id>] whose [id] is
    a non-empty run of digits: it returns a role if and only if the mention
    has that form and [id] is the key of that role in [guild.roles]. A
    missing or empty mention gives nothing. *)
Theorem getRoleFromMention_spec guild mention role :
  Mention.getRoleFromMention guild mention = Some role
  ↔ ∃ id, Mention.all_digits id = true
          ∧ mention = Some ("<@&" +:+ id +:+ ">")
          ∧ roles guild !! id = Some role.
Proof.
  unfold Mention.getRoleFromMention. rewrite from_mention_spec by done.
  setoid_rewrite role_id_of_spec. split.
  - intros (m & id & -> & [Hd ->] & Hget). eauto.
  - intros (id & Hd & -> & Hget). eauto 10.
Qed.

(** X12. [getMemberFromMention] reads the two forms [<@id>] and [<@!id>]
    with [id] a non-empty run of digits, and nothing else: it returns a
    member if and only if the mention has one of these forms and
    [guild.members] has that member under [id]. *)
Theorem getMemberFromMention_spec guild mention member :
  Mention.getMemberFromMention guild mention = Some member
  ↔ ∃ id, Mention.all_digits id = true
          ∧ (mention = Some ("<@" +:+ id +:+ ">")
             ∨ mention = Some ("<@!" +:+ id +:+ ">"))
          ∧ members_get (members guild) id = Some member.
Proof.
  unfold Mention.getMemberFromMention. rewrite from_mention_spec by done.
  setoid_rewrite member_id_of_spec. split.
  - intros (m & id & -> & [Hd [-> | ->]] & Hget); eauto 10.
  - intros (id & Hd & [-> | ->] & Hget); eauto 10.
Qed.

(** X13. The three kinds of mention are disjoint: a text that
    [getRoleFromMention] resolves is resolved neither by
    [getMemberFromMention] nor by [getChannelFromMention], and a text that
    [getMemberFromMention] resolves is not resolved by
    [getChannelFromMention], whatever the guild holds. *)
Theorem mention_kinds_disjoint guild mention :
  (is_Some (Mention.getRoleFromMention guild mention) →
     Mention.getMemberFromMention guild mention = None
     ∧ Mention.getChannelFromMention guild mention = None)
  ∧ (is_Some (Mention.getMemberFromMention guild mention) →
     Mention.getChannelFromMention guild mention = None).
Proof.
  assert (∀ ch, Mention.getChannelFromMention guild mention = Some ch →
            ∃ id, mention = Some ("<#" +:+ id +:+ ">")) as Hch.
  { intros ch. unfold Mention.getChannelFromMention.
    rewrite from_mention_spec by done. setoid_rewrite channel_id_of_spec.
    intros (m & id & -> & [Hd ->] & _). eauto. }
  split.
  - intros [role (id & Hd & ->)%role_mention_form]. split.
    + apply eq_None_not_Some. intros [mb Hm].
      apply member_mention_form in Hm as (id' & Hd' & [Heq|Heq]);
        simplify_eq/=.
      destruct id' as [|c id']; [done|]. simplify_eq/=.
      by apply all_digits_head in Hd'.
    + apply eq_None_not_Some. intros [ch (id' & Heq)%Hch]. simplify_eq/=.
  - intros [mb (id & Hd & Hm)%member_mention_form].
    apply eq_None_not_Some. intros [ch (id' & Heq)%Hch].
    destruct Hm as [-> | ->]; simplify_eq/=.
Qed.

(** ** Permission checks *)

Section PermissionChecks.

Context {Perm : Type} (label : Perm → option string).

Implicit Types (cmd : Permissions.Command Perm) (ctx : Permissions.Env Perm).

Lemma filter_missing_nil (has : Perm → bool) (perms : list Perm) :
  filter (λ p, has p = false) perms = [] ↔ ∀ p, p ∈ perms → has p = true.
Proof.
  induction perms as [|p perms IH]; [by split; [intros _ p ?%elem_of_nil|]|].
  destruct (has p) eqn:Hp.
  - rewrite filter_cons_False by congruence. rewrite IH. split.
    + intros H q [->|?]%elem_of_cons; auto.
    + intros H q Hq. apply H. by right.
  - rewrite filter_cons_True by done. split; [done|].
    intros H. specialize (H p ltac:(left)). congruence.
Qed.

Lemma checkClientPermissions_cases cmd ctx :
  let r := Permissions.checkClientPermissions label cmd ctx in
  (r = {| Permissions.replies := []; Permissions.result := Permissions.Returned true |})
  ∨ (∃ reply, r = {| Permissions.replies := [reply];
                     Permissions.result := Permissions.Returned false |})
  ∨ (r = {| Permissions.replies := []; Permissions.result := Permissions.Threw |}).
Proof.
  unfold Permissions.checkClientPermissions.
  repeat (case_match; eauto).
Qed.

Lemma checkUserPermissions_cases cmd ctx o :
  let r := Permissions.checkUserPermissions label cmd ctx o in
  (r = {| Permissions.replies := []; Permissions.result := Permissions.Returned true |})
  ∨ (∃ reply, r = {| Permissions.replies := [reply];
                     Permissions.result := Permissions.Returned false |})
  ∨ (r = {| Permissions.replies := []; Permissions.result := Permissions.Threw |}).
Proof.
  unfold Permissions.checkUserPermissions.
  repeat (case_match; eauto).
Qed.

(** X14. [checkPermissions] says yes exactly when it posted nothing: if it
    returns, it returns [true] if and only if no reply was sent, and it sends
    one reply for each of the two checks that failed. *)
Theorem checkPermissions_true_iff_silent cmd ctx o b :
  Permissions.result (Permissions.checkPermissions label cmd ctx o)
  = Permissions.Returned b →
  (b = true ↔ Permissions.replies (Permissions.checkPermissions label cmd ctx o) = [])
  ∧ length (Permissions.replies (Permissions.checkPermissions label cmd ctx o))
    = (if Permissions.result (Permissions.checkClientPermissions label cmd ctx)
       is Permissions.Returned false then 1 else 0)
      + (if Permissions.result (Permissions.checkUserPermissions label cmd ctx o)
         is Permissions.Returned false then 1 else 0).
Proof.
  unfold Permissions.checkPermissions.
  destruct (checkClientPermissions_cases cmd ctx) as [->|[(rc & ->)| ->]];
    destruct (checkUserPermissions_cases cmd ctx o) as [->|[(ru & ->)| ->]];
    cbn [Permissions.replies Permissions.result app]; intros [= <-] || intros [=];
    (split; [split; done | done]).
Qed.

(** X15. When the author's permissions can be read, [checkUserPermissions]
    lets the author through in two cases only: the owner of the bot with the
    owner override on; or an author who is the owner if the command is
    for the owner only, and who holds every user permission the command
    asks for. With the override off, the owner is checked like anyone. *)
Theorem checkUserPermissions_true_iff cmd ctx o has :
  Permissions.permissionsFor ctx = Some has →
  Permissions.result (Permissions.checkUserPermissions label cmd ctx o)
  = Permissions.Returned true
  ↔ (o = true ∧ Permissions.isOwner ctx = true)
    ∨ ((Permissions.ownerOnly cmd = true → Permissions.isOwner ctx = true)
       ∧ ∀ perms, Permissions.userPermissions cmd = Some perms →
                  ∀ p, p ∈ perms → has p = true).
Proof.
  intros Hhas. unfold Permissions.checkUserPermissions. rewrite Hhas.
  destruct (Permissions.ownerOnly cmd) eqn:Hoo, (Permissions.userPermissions cmd)
    as [perms|] eqn:Hup, o, (Permissions.isOwner ctx) eqn:Hio;
    cbn [negb andb orb]; try rewrite bool_decide_true by eauto;
    try rewrite bool_decide_false by (by intros [? ?]);
    cbn [negb andb orb Permissions.result].
  all: try (pose proof (filter_missing_nil has perms) as Hnil;
            destruct (filter _ perms) as [|q l]; cbn [Permissions.result]).
  all: split; try done; try (intros _; by left); try (intros _; right; split; [done|]).
  all: try (intros ? [= <-]; by apply Hnil).
  all: try (by intros ? [=]).
  all: try (intros [[? ?]|[Hown Hall]]; try done).
  all: try (by specialize (Hown eq_refl)).
  all: try (specialize (Hall perms eq_refl); by apply Hnil in Hall).
Qed.

(** X16. [checkUserPermissions] throws in one situation only: the command
    asks for user permissions, the author's permissions in the channel
    cannot be read ([permissionsFor] gives [null]), and the author is neither
    let through as the owner nor turned away by an owner-only command. *)
Theorem checkUserPermissions_throws_iff cmd ctx o :
  Permissions.result (Permissions.checkUserPermissions label cmd ctx o)
  = Permissions.Threw
  ↔ Permissions.permissionsFor ctx = None
    ∧ is_Some (Permissions.userPermissions cmd)
    ∧ ¬ (o = true ∧ Permissions.isOwner ctx = true)
    ∧ ¬ (Permissions.ownerOnly cmd = true ∧ Permissions.isOwner ctx = false).
Proof.
  unfold Permissions.checkUserPermissions.
  destruct (Permissions.ownerOnly cmd), (Permissions.userPermissions cmd) as [perms|],
    o, (Permissions.isOwner ctx), (Permissions.permissionsFor ctx) as [has|];
    cbn [negb andb orb]; try rewrite bool_decide_true by eauto;
    try rewrite bool_decide_false by (by intros [? ?]);
    cbn [negb andb orb Permissions.result];
    try (destruct (filter _ perms); cbn [Permissions.result]).
  all: split; try done.
  all: try (intros (? & [? ?] & ? & ?); done).
  all: try (intros (? & ? & H1 & H2); try (by destruct H1); by destruct H2).
  all: intros _; split_and!; try done; try (by eexists); by intros [? ?].
Qed.

(** X17. [checkClientPermissions] throws exactly when the command has a
    client permission to check and [message.guild.me] cannot be read; it
    returns [true] exactly when there is nothing to check or the bot holds
    every client permission of the command; and when it returns [false] it
    has posted one reply, which names the permissions of the command that
    the bot lacks, and only those, in the order of the command. In every
    other case it posts nothing. *)
Theorem checkClientPermissions_spec cmd ctx :
  let r := Permissions.checkClientPermissions label cmd ctx in
  (Permissions.result r = Permissions.Threw
   ↔ Permissions.me ctx = None ∧ Permissions.clientPermissions cmd ≠ [])
  ∧ (Permissions.result r = Permissions.Returned true
     ↔ Permissions.clientPermissions cmd = []
       ∨ ∃ has, Permissions.me ctx = Some has
                ∧ ∀ p, p ∈ Permissions.clientPermissions cmd → has p = true)
  ∧ (Permissions.result r = Permissions.Returned false →
     ∃ has missing,
       Permissions.me ctx = Some has
       ∧ Permissions.replies r
         = [Permissions.ClientMissing (Permissions.name cmd) (label <$> missing)]
       ∧ missing ≠ []
       ∧ missing `sublist_of` Permissions.clientPermissions cmd
       ∧ ∀ p, p ∈ missing ↔ p ∈ Permissions.clientPermissions cmd ∧ has p = false)
  ∧ (Permissions.result r ≠ Permissions.Returned false → Permissions.replies r = []).
Proof.
  intros r. subst r. unfold Permissions.checkClientPermissions.
  destruct (Permissions.clientPermissions cmd) as [|q perms] eqn:Hperms.
  { cbn [Permissions.result Permissions.replies]. split_and!.
    - split; [done | by intros [_ ?]].
    - split; [by left | done].
    - done.
    - done. }
  destruct (Permissions.me ctx) as [has|].
  - pose proof (filter_missing_nil has (q :: perms)) as Hnil.
    destruct (filter (λ p, has p = false) (q :: perms)) as [|m missing] eqn:Hf;
      cbn [Permissions.result Permissions.replies].
    + split_and!.
      * split; [done | by intros [? _]].
      * split; [|done]. intros _. right. exists has. split; [done|]. by apply Hnil.
      * done.
      * done.
    + split_and!.
      * split; [done | by intros [? _]].
      * split; [done|]. intros [?|(has' & [= <-] & Hall)]; [done|].
        by apply Hnil in Hall.
      * intros _. exists has, (m :: missing). split_and!; [done | done | done | |].
        -- rewrite <- Hf. apply sublist_filter.
        -- intros p. rewrite <- Hf, list_elem_of_filter. tauto.
      * done.
  - cbn [Permissions.result Permissions.replies]. split_and!.
    + done.
    + split; [done|]. intros [?|(has & ? & _)]; done.
    + done.
    + done.
Qed.

End PermissionChecks.

Lemma checkPermissions_true_iff_silent_witness :
  Permissions.result
    (Permissions.checkPermissions CommandScenario.label CommandScenario.setmodrole
       (CommandScenario.asked false []) true)
  = Permissions.Returned false
  ∧ length (Permissions.replies
      (Permissions.checkPermissions CommandScenario.label CommandScenario.setmodrole
         (CommandScenario.asked false []) true)) = 0 + 1.
Proof.
  split; [reflexivity|].
  apply (checkPermissions_true_iff_silent CommandScenario.label
           CommandScenario.setmodrole (CommandScenario.asked false []) true false).
  reflexivity.
Defined.

Lemma checkUserPermissions_true_iff_witness :
  Permissions.permissionsFor (CommandScenario.asked false ["MANAGE_GUILD"])
  = Some (λ p, bool_decide (p ∈ ["MANAGE_GUILD"]))
  ∧ Permissions.result
      (Permissions.checkUserPermissions CommandScenario.label CommandScenario.setmodrole
         (CommandScenario.asked false ["MANAGE_GUILD"]) true)
    = Permissions.Returned true.
Proof.
  split; [reflexivity|].
  apply (checkUserPermissions_true_iff CommandScenario.label CommandScenario.setmodrole
           (CommandScenario.asked false ["MANAGE_GUILD"]) true
           (λ p, bool_decide (p ∈ ["MANAGE_GUILD"])) eq_refl).
  right. split; [discriminate|].
  intros perms [= <-] p Hp. apply bool_decide_eq_true. exact Hp.
Defined.

(** ** The constructor *)

Section Constructor.

Variable toLowerCase : string → string.
Variable permissions : Options.Value → bool.

Lemma first_failure_None checks :
  Options.first_failure checks = None → Forall (λ c, c = None) checks.
Proof.
  unfold Options.first_failure. induction checks as [|c checks IH]; [constructor|].
  simpl. destruct c as [f|]; simpl; [done|]. intros H. constructor; [done|].
  by apply IH.
Qed.

Lemma all_strings_fmap items :
  existsb (λ ali, negb (Options.is_string ali)) items = false →
  existsb (Options.not_lowercase toLowerCase) items = false →
  ∃ l, items = Options.VStr <$> l ∧ Forall (λ a, a = toLowerCase a) l.
Proof.
  induction items as [|v items IH]; simpl; [by exists []|].
  intros [Hv Hs]%orb_false_iff [Hl Hls]%orb_false_iff.
  destruct (IH Hs Hls) as (l & -> & Hall). destruct v; try done.
  exists (s :: l). split; [done|]. constructor; [|done].
  simpl in Hl. by apply bool_decide_eq_false, dec_stable in Hl.
Qed.

Lemma check_aliases_None v :
  Options.check_aliases toLowerCase v = None →
  Options.or_else v Options.VNull = Options.VNull
  ∨ ∃ l, Options.or_else v Options.VNull = Options.VArr (Options.VStr <$> l)
         ∧ Forall (λ a, a = toLowerCase a) l.
Proof.
  unfold Options.check_aliases, Options.or_else.
  destruct (Options.truthy v) eqn:Ht; [|by left].
  destruct v; try done.
  destruct (existsb _ items) eqn:Hs; [done|].
  destruct (existsb (Options.not_lowercase toLowerCase) items) eqn:Hl; [done|].
  intros _. right. destruct (all_strings_fmap items Hs Hl) as (l & -> & Hall). eauto.
Qed.

Lemma check_string_None v f d :
  Options.check_string v f = None →
  Options.is_string (Options.or_else v (Options.VStr d)) = true.
Proof.
  unfold Options.check_string, Options.or_else.
  destruct (Options.truthy v); [|done]. by destruct (Options.is_string v).
Qed.

Lemma check_permissions_None v na inv d :
  Options.check_permissions permissions v na inv = None →
  Options.or_else v d = d
  ∨ ∃ l, Options.or_else v d = Options.VArr l ∧ Forall (λ p, permissions p = true) l.
Proof.
  unfold Options.check_permissions, Options.or_else.
  destruct (Options.truthy v); [|by left]. destruct v; try done.
  destruct (List.find _ items) eqn:Hf; [done|]. intros _. right.
  exists items. split; [done|]. apply Forall_forall. intros p Hp.
  apply list_elem_of_In in Hp. apply (List.find_none _ _ Hf) in Hp.
  by apply negb_false_iff in Hp.
Qed.

(** X18. What the constructor guarantees. A command that was constructed
    has: a name that is a string equal to its lower case; aliases that are
    [null] or an array of strings in lower case; a usage and a description
    that are strings; a type that is ['general'] or a non-empty string in
    lower case; client permissions that are the default [SEND_MESSAGES] or an
    array of keys of the permission table; user permissions that are [null]
    or such an array; and a boolean in [ownerOnly]. *)
Theorem construct_invariants client options cmd :
  Options.construct toLowerCase permissions client options = inr cmd →
  (∃ n, Options.name cmd = Options.VStr n ∧ n = toLowerCase n)
  ∧ (Options.aliases cmd = Options.VNull
     ∨ ∃ l, Options.aliases cmd = Options.VArr (Options.VStr <$> l)
            ∧ Forall (λ a, a = toLowerCase a) l)
  ∧ Options.is_string (Options.usage cmd) = true
  ∧ Options.is_string (Options.description cmd) = true
  ∧ (Options.type cmd = Options.VStr "general"
     ∨ ∃ ty, Options.type cmd = Options.VStr ty ∧ ty ≠ "" ∧ ty = toLowerCase ty)
  ∧ (Options.clientPermissions cmd = Options.VArr [Options.VStr "SEND_MESSAGES"]
     ∨ ∃ l, Options.clientPermissions cmd = Options.VArr l
            ∧ Forall (λ p, permissions p = true) l)
  ∧ (Options.userPermssions cmd = Options.VNull
     ∨ ∃ l, Options.userPermssions cmd = Options.VArr l
            ∧ Forall (λ p, permissions p = true) l)
  ∧ Options.is_boolean (Options.ownerOnly cmd) = true.
Proof.
  unfold Options.construct.
  destruct (Options.validateOptions toLowerCase permissions client options)
    as [f|] eqn:Hv; [done|].
  destruct options as [| |o]; [done..|]. intros [= <-].
  unfold Options.validateOptions in Hv. destruct client; [|done]. simpl in Hv.
  apply first_failure_None in Hv.
  apply Forall_cons in Hv as [Hname Hv]. apply Forall_cons in Hv as [Hlow Hv].
  apply Forall_cons in Hv as [Hali Hv]. apply Forall_cons in Hv as [Husage Hv].
  apply Forall_cons in Hv as [Hdesc Hv]. apply Forall_cons in Hv as [Htype Hv].
  apply Forall_cons in Hv as [Htlow Hv]. apply Forall_cons in Hv as [Hcp Hv].
  apply Forall_cons in Hv as [Hup Hv]. apply Forall_cons in Hv as [Hoo _].
  cbn [Options.name Options.aliases Options.usage Options.description Options.type
       Options.clientPermissions Options.userPermssions Options.ownerOnly].
  split_and!.
  - destruct (Options.opt_name o) as [| | | |n| |]; try done. exists n.
    split; [done|]. simpl in Hlow. by case_bool_decide.
  - by apply check_aliases_None.
  - by eapply check_string_None.
  - by eapply check_string_None.
  - unfold Options.or_else. destruct (Options.truthy (Options.opt_type o)) eqn:Ht;
      [|by left]. right.
    unfold Options.check_string in Htype. rewrite ?Ht in Htype, Htlow.
    destruct (Options.opt_type o) as [| | | |ty| |]; try done.
    exists ty. split; [done|]. simpl in Ht, Htlow.
    split; [by apply bool_decide_eq_true in Ht|].
    by case_bool_decide.
  - by eapply check_permissions_None.
  - by eapply check_permissions_None.
  - unfold Options.or_else. destruct (Options.truthy (Options.opt_ownerOnly o)) eqn:Ht;
      [|done].
    rewrite ?Ht in Hoo. by destruct (Options.is_boolean (Options.opt_ownerOnly o)).
Qed.

Lemma given_truthy v : Options.truthy (Options.given v) = Options.truthy v.
Proof. unfold Options.given. by destruct (Options.truthy v) eqn:Ht. Qed.

Lemma given_or_else v d : Options.or_else (Options.given v) d = Options.or_else v d.
Proof.
  unfold Options.or_else. rewrite given_truthy. unfold Options.given.
  by destruct (Options.truthy v).
Qed.

Lemma given_check_aliases v :
  Options.check_aliases toLowerCase (Options.given v)
  = Options.check_aliases toLowerCase v.
Proof.
  unfold Options.check_aliases, Options.given.
  destruct (Options.truthy v) eqn:Ht; simpl; by rewrite ?Ht.
Qed.

Lemma given_check_string v f :
  Options.check_string (Options.given v) f = Options.check_string v f.
Proof.
  unfold Options.check_string, Options.given.
  destruct (Options.truthy v) eqn:Ht; simpl; by rewrite ?Ht.
Qed.

Lemma given_check_permissions v na inv :
  Options.check_permissions permissions (Options.given v) na inv
  = Options.check_permissions permissions v na inv.
Proof.
  unfold Options.check_permissions, Options.given.
  destruct (Options.truthy v) eqn:Ht; simpl; by rewrite ?Ht.
Qed.

Lemma given_not_lowercase v :
  Options.truthy (Options.given v) && Options.not_lowercase toLowerCase (Options.given v)
  = Options.truthy v && Options.not_lowercase toLowerCase v.
Proof.
  unfold Options.given. destruct (Options.truthy v) eqn:Ht; simpl; by rewrite ?Ht.
Qed.

Lemma given_not_boolean v :
  Options.truthy (Options.given v) && negb (Options.is_boolean (Options.given v))
  = Options.truthy v && negb (Options.is_boolean v).
Proof.
  unfold Options.given. destruct (Options.truthy v) eqn:Ht; simpl; by rewrite ?Ht.
Qed.

(** X19. For the optional properties ([aliases], [usage], [description],
    [type], the two permission lists and [ownerOnly]) a falsy value of any
    type ([0], [''], [false], [null]) is taken as not given: it is never
    reported, and the constructor fills in the default. *)
Theorem construct_falsy_optional_is_absent client o :
  Options.construct toLowerCase permissions client (Options.Object o)
  = Options.construct toLowerCase permissions client
      (Options.Object (Options.normalize o)).
Proof.
  assert (Options.validateOptions toLowerCase permissions client
            (Options.Object (Options.normalize o))
          = Options.validateOptions toLowerCase permissions client (Options.Object o))
    as Hv.
  { unfold Options.validateOptions, Options.normalize.
    cbn [Options.opt_name Options.opt_aliases Options.opt_usage
         Options.opt_description Options.opt_type Options.opt_clientPermissions
         Options.opt_userPermissions Options.opt_ownerOnly].
    by rewrite given_check_aliases, !given_check_string, !given_check_permissions,
      given_not_lowercase, given_not_boolean. }
  unfold Options.construct. rewrite Hv. clear Hv.
  destruct (Options.validateOptions toLowerCase permissions client (Options.Object o));
    [done|].
  unfold Options.normalize.
  cbn [Options.opt_name Options.opt_aliases Options.opt_usage
       Options.opt_description Options.opt_type Options.opt_clientPermissions
       Options.opt_userPermissions Options.opt_ownerOnly].
  by rewrite !given_or_else.
Qed.

End Constructor.

Lemma construct_invariants_witness :
  Options.construct CommandScenario.lower CommandScenario.known true
    (Options.Object CommandScenario.options)
  = inr {| Options.name := Options.VStr "setmodrole";
           Options.aliases := Options.VArr [Options.VStr "setmr"; Options.VStr "smr"];
           Options.usage := Options.VStr "<ROLE MENTION | ROLE NAME>";
           Options.description :=
             Options.VStr "Sets the mod role for your server (provide no role to clear).";
           Options.type := Options.VStr "admin";
           Options.clientPermissions := Options.VArr [Options.VStr "SEND_MESSAGES"];
           Options.userPermssions := Options.VArr [Options.VStr "MANAGE_GUILD"];
           Options.ownerOnly := Options.VBool false |}
  ∧ Options.is_boolean (Options.VBool false) = true.
Proof.
  split; [reflexivity|].
  apply (construct_invariants CommandScenario.lower CommandScenario.known true
           (Options.Object CommandScenario.options)
           {| Options.name := Options.VStr "setmodrole";
              Options.aliases := Options.VArr [Options.VStr "setmr"; Options.VStr "smr"];
              Options.usage := Options.VStr "<ROLE MENTION | ROLE NAME>";
              Options.description :=
                Options.VStr "Sets the mod role for your server (provide no role to clear).";
              Options.type := Options.VStr "admin";
              Options.clientPermissions := Options.VArr [Options.VStr "SEND_MESSAGES"];
              Options.userPermssions := Options.VArr [Options.VStr "MANAGE_GUILD"];
              Options.ownerOnly := Options.VBool false |}).
  reflexivity.
Defined.

(** ** The command [setmodrole] *)

Section SetModRoleRun.

Variable toLowerCase : string → string.

Lemma from_mention_role get id :
  Mention.all_digits id = true →
  Mention.from_mention (A:=SetModRole.GuildRole) Mention.role_id_of get
    (Some ("<@&" +:+ id +:+ ">")) = get id.
Proof.
  intros Hd. unfold Mention.from_mention.
  assert (JS.truthy_string (Some ("<@&" +:+ id +:+ ">")) = true) as ->.
  { apply bool_decide_eq_true. intros H.
    change (String "<" ("@&" +:+ id +:+ ">") = "") in H. discriminate. }
  cbn [mbind option_bind].
  assert (Mention.role_id_of ("<@&" +:+ id +:+ ">") = Some id) as ->
    by by apply role_id_of_spec.
  done.
Qed.

Lemma roles_get_elem rs id r :
  SetModRole.roles_get rs id = Some r → r ∈ rs ∧ role_id (SetModRole.role r) = id.
Proof.
  unfold SetModRole.roles_get. intros [Hin Hid]%List.find_some.
  split; [by apply list_elem_of_In|]. by apply bool_decide_eq_true in Hid.
Qed.

Lemma roles_find_elem rs n r :
  SetModRole.roles_find toLowerCase rs n = Some r →
  r ∈ rs ∧ toLowerCase (SetModRole.role_name r) = n.
Proof.
  unfold SetModRole.roles_find. intros [Hin Hn]%List.find_some.
  split; [by apply list_elem_of_In|]. by apply bool_decide_eq_true in Hn.
Qed.

Lemma roles_find_first rs pre r post n :
  rs = pre ++ r :: post →
  toLowerCase (SetModRole.role_name r) = n →
  (∀ r', r' ∈ pre → toLowerCase (SetModRole.role_name r') ≠ n) →
  SetModRole.roles_find toLowerCase rs n = Some r.
Proof.
  intros -> Hr. unfold SetModRole.roles_find.
  induction pre as [|r' pre IH]; intros Hpre; simpl.
  - by rewrite bool_decide_true.
  - rewrite bool_decide_false by (apply Hpre; left).
    apply IH. intros r'' Hin. apply Hpre. by right.
Qed.

Lemma roles_find_none rs n :
  (∀ r, r ∈ rs → toLowerCase (SetModRole.role_name r) ≠ n) →
  SetModRole.roles_find toLowerCase rs n = None.
Proof.
  unfold SetModRole.roles_find. induction rs as [|r rs IH]; intros Hrs; [done|].
  simpl. rewrite bool_decide_false by (apply Hrs; left).
  apply IH. intros r' Hin. apply Hrs. by right.
Qed.

(** X20. [setmodrole] writes the setting at most once, and only with
    [null] or the id of a role of the guild: with no argument it writes
    [null] and answers that the role was cleared; otherwise it either answers
    that it does not recognise the role and writes nothing, or writes the id
    of one of the guild's roles and names that role in its answer. *)
Theorem setmodrole_run_shapes message args :
  (args = []
   ∧ SetModRole.run toLowerCase message args
     = [SetModRole.UpdateModRoleId None (SetModRole.guild message);
        SetModRole.Send SetModRole.Cleared])
  ∨ (args ≠ []
     ∧ SetModRole.run toLowerCase message args
       = [SetModRole.Send (SetModRole.NotRecognized (SetModRole.member message))])
  ∨ (args ≠ []
     ∧ ∃ r, r ∈ SetModRole.guild_roles message
            ∧ SetModRole.run toLowerCase message args
              = [SetModRole.UpdateModRoleId (Some (role_id (SetModRole.role r)))
                   (SetModRole.guild message);
                 SetModRole.Send (SetModRole.Updated (role_mention (SetModRole.role r)))]).
Proof.
  destruct args as [|a args]; [by left|]. right.
  unfold SetModRole.run.
  destruct (Mention.from_mention _ _ _) as [r|] eqn:Hm.
  - right. split; [done|]. exists r. split; [|done].
    apply from_mention_spec in Hm as (m & id & _ & _ & Hget); [|done].
    by apply roles_get_elem in Hget as [? _].
  - destruct (SetModRole.roles_find _ _ _) as [r|] eqn:Hf.
    + right. split; [done|]. exists r. split; [|done].
      by apply roles_find_elem in Hf as [? _].
    + by left.
Qed.

(** X21. A role mention comes first: when the first argument is the mention
    [<@&id>] of a role of the guild, that role is the one written, whatever
    the other arguments are and whatever role the whole text may name. *)
Theorem setmodrole_mention_first message id rest r :
  Mention.all_digits id = true →
  SetModRole.roles_get (SetModRole.guild_roles message) id = Some r →
  SetModRole.run toLowerCase message (("<@&" +:+ id +:+ ">") :: rest)
  = [SetModRole.UpdateModRoleId (Some (role_id (SetModRole.role r)))
       (SetModRole.guild message);
     SetModRole.Send (SetModRole.Updated (role_mention (SetModRole.role r)))].
Proof.
  intros Hd Hget. unfold SetModRole.run. cbn [head].
  by rewrite from_mention_role, Hget.
Qed.

(** X22. Without a mention that resolves, the role is looked up by name,
    ignoring case, over the arguments joined with spaces: the first role of
    the collection whose lower-cased name is the lower-cased text is written;
    and when no role has that name nothing is written. *)
Theorem setmodrole_by_name message a args :
  Mention.from_mention Mention.role_id_of
    (SetModRole.roles_get (SetModRole.guild_roles message)) (Some a) = None →
  let text := toLowerCase (SetModRole.join (a :: args)) in
  (∀ pre r post,
     SetModRole.guild_roles message = pre ++ r :: post →
     toLowerCase (SetModRole.role_name r) = text →
     (∀ r', r' ∈ pre → toLowerCase (SetModRole.role_name r') ≠ text) →
     SetModRole.run toLowerCase message (a :: args)
     = [SetModRole.UpdateModRoleId (Some (role_id (SetModRole.role r)))
          (SetModRole.guild message);
        SetModRole.Send (SetModRole.Updated (role_mention (SetModRole.role r)))])
  ∧ ((∀ r, r ∈ SetModRole.guild_roles message →
           toLowerCase (SetModRole.role_name r) ≠ text) →
     SetModRole.run toLowerCase message (a :: args)
     = [SetModRole.Send (SetModRole.NotRecognized (SetModRole.member message))]).
Proof.
  intros Hm text. subst text. unfold SetModRole.run. cbn [head]. rewrite Hm. split.
  - intros pre r post Hrs Hr Hpre.
    by rewrite (roles_find_first _ pre r post _ Hrs Hr Hpre).
  - intros Hnone. by rewrite roles_find_none.
Qed.

End SetModRoleRun.

Lemma setmodrole_mention_first_witness :
  Mention.all_digits "900" = true
  ∧ SetModRole.run CommandScenario.lower CommandScenario.message
      ["<@&900>"; "mod"; "team"]
    = [SetModRole.UpdateModRoleId (Some "900") "42";
       SetModRole.Send (SetModRole.Updated "<@&900>")].
Proof.
  split; [reflexivity|].
  apply (setmodrole_mention_first CommandScenario.lower CommandScenario.message
           "900" ["mod"; "team"]
           {| SetModRole.role := {| role_id := "900"; role_mention := "<@&900>" |};
              SetModRole.role_name := "Crown" |});
    reflexivity.
Defined.

Lemma setmodrole_by_name_witness :
  Mention.from_mention Mention.role_id_of
    (SetModRole.roles_get (SetModRole.guild_roles CommandScenario.message))
    (Some "MOD") = None
  ∧ SetModRole.run CommandScenario.lower CommandScenario.message ["MOD"; "Team"]
    = [SetModRole.UpdateModRoleId (Some "901") "42";
       SetModRole.Send (SetModRole.Updated "<@&901>")].
Proof.
  split; [reflexivity|].
  apply (proj1 (setmodrole_by_name CommandScenario.lower CommandScenario.message
                  "MOD" ["Team"] eq_refl)
           [{| SetModRole.role := {| role_id := "900"; role_mention := "<@&900>" |};
               SetModRole.role_name := "Crown" |}]
           {| SetModRole.role := {| role_id := "901"; role_mention := "<@&901>" |};
              SetModRole.role_name := "Mod Team" |} []).
  - reflexivity.
  - reflexivity.
  - intros r' Hin. apply list_elem_of_singleton in Hin. subst r'. discriminate.
Defined.

(** * Who is touched by a cycle *)

Lemma members_get_id ms id m :
  members_get ms id = Some m → member_id m = id ∧ m ∈ ms.
Proof.
  induction ms as [|m' ms IH]; simpl; [done|]. case_bool_decide as Hid.
  - intros [= <-]. split; [done | left].
  - intros [? ?]%IH. split; [done | by right].
Qed.

(** X23. A cycle removes the crown role, and only it, from holders only:
    every [removeRole] in the trace is for a member of the guild who holds
    the role, names the crown role, and settles as the platform answers for
    that member. *)
Theorem rotateCrown_removes_only_holders gw client guild crownRole m r ok :
  EvRemoveRole m r ok ∈ trace (rotateCrown gw client guild crownRole) →
  r = role_id crownRole
  ∧ ok = removeRole_ok gw m
  ∧ ∃ member, member ∈ members guild ∧ member_id member = m
              ∧ role_id crownRole ∈ member_roles member.
Proof.
  intros Hin.
  destruct (selectLeaderboard client (guild_id guild)) as [|top lb] eqn:Hlb.
  { rewrite rotateCrown_no_first_row in Hin by done. by apply elem_of_nil in Hin. }
  assert (EvRemoveRole m r ok
            ∈ filter (λ e, is_remove e) (trace (rotateCrown gw client guild crownRole)))
    as Hf by by apply list_elem_of_filter.
  rewrite rotateCrown_removes in Hf by (by rewrite Hlb).
  unfold strip_issue in Hf. apply list_elem_of_fmap in Hf as (member & [= -> -> ->] & Hm).
  unfold holders in Hm. apply list_elem_of_filter in Hm as [Hrole Hm].
  split_and!; [done..|]. by exists member.
Qed.

Lemma rotateCrown_removes_only_holders_witness :
  "900" = role_id Scenario.crown
  ∧ false = removeRole_ok (Scenario.gateway ["2"]) "2"
  ∧ ∃ member, member ∈ members Scenario.guild ∧ member_id member = "2"
              ∧ role_id Scenario.crown ∈ member_roles member.
Proof.
  apply (rotateCrown_removes_only_holders (Scenario.gateway ["2"])
           (Scenario.client None None (Scenario.top "7"))
           Scenario.guild Scenario.crown "2" "900" false).
  vm_compute. right. left.
Defined.

(** X24. The crown role is only ever given to the user of the first row of
    the leaderboard: every [addRole] in the trace is for that user, who is a
    member of the guild, names the crown role, and there is at most one. *)
Theorem rotateCrown_adds_only_top gw client guild crownRole m r ok :
  EvAddRole m r ok ∈ trace (rotateCrown gw client guild crownRole) →
  r = role_id crownRole
  ∧ ok = addRole_ok gw m
  ∧ (∃ top lb w, selectLeaderboard client (guild_id guild) = top :: lb
                 ∧ m = user_id top ∧ w ∈ members guild ∧ member_id w = m)
  ∧ (length (filter (λ e, is_add e) (trace (rotateCrown gw client guild crownRole))) ≤ 1)%nat.
Proof.
  unfold rotateCrown.
  destruct (selectLeaderboard client (guild_id guild)) as [|top lb];
    [by intros ?%elem_of_nil|].
  set (ch := defaultChannel_of client guild).
  pose proof (strip_events_strip gw ch crownRole guild) as Hst.
  assert (filter (λ e, is_add e) (strip_events (strip_phase gw ch crownRole guild)) = [])
    as Hnone.
  { induction Hst as [|e l He _ IH]; [done|]. rewrite filter_cons_False; [done|].
    intros Ha. destruct e as [| | |? []|]; by simpl in *. }
  assert (EvAddRole m r ok ∉ strip_events (strip_phase gw ch crownRole guild)) as Hno.
  { intros Hin. rewrite Forall_forall in Hst. by apply Hst in Hin. }
  destruct (strip_rejected _); [done|]. destruct (quit _); [done|].
  unfold prepend. cbn [trace]. intros Hin.
  apply elem_of_app in Hin as [?|Hin]; [done|].
  rewrite filter_app, Hnone. cbn [app].
  assert (∀ l, Forall (λ e, is_report e) l →
               (EvAddRole m r ok ∉ l) ∧ filter (λ e, is_add e) l = []) as Hrep.
  { intros l Hl. split.
    - intros Hi. rewrite Forall_forall in Hl. by apply Hl in Hi.
    - induction Hl as [|e l He _ IH]; [done|]. rewrite filter_cons_False; [done|].
      intros Ha. destruct e as [| | |? []|]; by simpl in *. }
  unfold grant_phase in *.
  destruct (members_get (members guild) (user_id top)) as [w|] eqn:Hw.
  - apply members_get_id in Hw as [Hid Hmem].
    destruct (addRole_ok gw (member_id w)) eqn:Hadd; unfold prepend in *;
      cbn [trace app] in *.
    + destruct (Hrep _ (announce_report gw client guild crownRole ch (Some w)))
        as [Hni Hnf].
      apply elem_of_cons in Hin as [[= -> -> ->]|Hin].
      * rewrite !filter_cons, Hnf. simpl. split_and!; [done | done | | lia].
        exists top, lb, w. by rewrite Hid.
      * by apply elem_of_cons in Hin as [Hin|Hin].
    + destruct (Hrep _ (grant_catch_report gw client guild crownRole ch (Some w)))
        as [Hni Hnf].
      apply elem_of_cons in Hin as [[= -> -> ->]|Hin]; [|done].
      rewrite !filter_cons, Hnf. simpl. split_and!; [done | done | | lia].
      exists top, lb, w. by rewrite Hid.
  - by destruct (Hrep _ (grant_catch_report gw client guild crownRole ch None)).
Qed.

Lemma rotateCrown_adds_only_top_witness :
  "900" = role_id Scenario.crown
  ∧ true = addRole_ok (Scenario.gateway []) "7"
  ∧ (∃ top lb w,
       selectLeaderboard (Scenario.client None None (Scenario.top "7"))
         (guild_id Scenario.guild) = top :: lb
       ∧ "7" = user_id top ∧ w ∈ members Scenario.guild ∧ member_id w = "7")
  ∧ (length (filter (λ e, is_add e)
       (trace (rotateCrown (Scenario.gateway [])
                 (Scenario.client None None (Scenario.top "7"))
                 Scenario.guild Scenario.crown))) ≤ 1)%nat.
Proof.
  apply (rotateCrown_adds_only_top (Scenario.gateway [])
           (Scenario.client None None (Scenario.top "7"))
           Scenario.guild Scenario.crown "7" "900" true).
  vm_compute. do 3 right. left.
Defined.
